(** * uqbar.py: batch queries of the UqbarDAO [uqAlloc] view function

    A shallow embedding of [src/uqbar.py] and the properties its
    specification states about it.

    The script talks to three collaborators that are not part of the
    repository: the web3 client library ([Web3.is_address],
    [Web3.to_checksum_address], the provider connection and the contract
    call), the csv writer and the console.  They appear below as the
    interface [Web3Client] over an abstract [World] (the chain, the network
    and the file system); the console and the calls made are recorded in a
    trace.  Python exceptions and [sys.exit] are the outcomes of a small
    state-and-exception monad.

    Modelling limits, stated once: collaborators raise instances of
    [Exception] only (asynchronous signals such as a keyboard interrupt, which
    end the process from outside, are not part of the model), and strings are
    byte strings. *)

From Stdlib Require Import ZArith List String Ascii Bool Lia DecimalString.
Import ListNotations.

Local Open Scope string_scope.
Local Open Scope Z_scope.

(** ** Python values, exceptions and formatting *)

Module Py.

(** The exception classes named in the script, with [Exception] standing
    for every other class below it.  [ContractLogicError] derives from
    [Web3Exception] (web3.exceptions); [ConnectionError] is the builtin. *)
Inductive exn_class : Type :=
| ContractLogicError
| Web3Exception
| ConnectionError
| Exception.

Record exn : Type := mk_exn { exn_type : exn_class; exn_str : string }.

Definition issubclass (c d : exn_class) : bool :=
  match c, d with
  | _, Exception => true
  | ContractLogicError, ContractLogicError => true
  | ContractLogicError, Web3Exception => true
  | Web3Exception, Web3Exception => true
  | ConnectionError, ConnectionError => true
  | _, _ => false
  end.

Definition isinstance (e : exn) (c : exn_class) : bool :=
  issubclass (exn_type e) c.

(** What a library function gives back: a value, or a raised exception. *)
Inductive reply (A : Type) : Type :=
| Ok (a : A)
| Err (e : exn).
Arguments Ok {A} a.
Arguments Err {A} e.

(** [str(n)] for an [int]. *)
Definition str_int (n : Z) : string := NilZero.string_of_int (Z.to_int n).

(** [len(xs)] *)
Definition len {A : Type} (xs : list A) : Z := Z.of_nat (List.length xs).

(** [sum(xs)]: starts from 0 and adds the items from left to right. *)
Definition sum (xs : list Z) : Z := fold_left Z.add xs 0.

(** [c * n] for a one-character string [c]. *)
Fixpoint repeat_char (c : ascii) (n : nat) : string :=
  match n with
  | O => EmptyString
  | S n' => String c (repeat_char c n')
  end.

(** The format spec [:<w]: left-aligned in a field of width [w]. *)
Definition ljust (s : string) (w : nat) : string :=
  s ++ repeat_char " "%char (w - String.length s).

Definition newline : string := String (ascii_of_nat 10) EmptyString.

(** Truth value of a string: only [''] is false. *)
Definition truthy (s : string) : bool := negb (String.eqb s "").

End Py.
Import Py.

(** ** Data model *)

(** One entry of the contract ABI. *)
Record AbiFunction : Type := mk_abi {
  abi_inputs : list string;
  abi_name : string;
  abi_outputs : list string;
  abi_stateMutability : string;
  abi_type : string
}.

Definition CONTRACT_ADDRESS : string := "0x777172385ac1d2e4ac61a9a98b0686cb4701b3a7".
Definition OPTIMISM_RPC_URL : string := "https://mainnet.optimism.io".

Definition CONTRACT_ABI : list AbiFunction :=
  [ {| abi_inputs := ["address"];
       abi_name := "uqAlloc";
       abi_outputs := ["uint256"];
       abi_stateMutability := "view";
       abi_type := "function" |} ].

(** [w3]: a client bound to one provider url. *)
Record Web3 : Type := mk_w3 { provider_url : string }.

(** [w3.eth.contract(address=..., abi=...)] *)
Record Contract : Type := mk_contract {
  contract_w3 : Web3;
  contract_address : string;
  contract_abi : list AbiFunction
}.

(** The tuple [(address, allocation, status)] returned by [query_uq_alloc]. *)
Definition QueryResult : Type := (string * Z * string)%type.

Definition qr_address (r : QueryResult) : string := fst (fst r).
Definition qr_allocation (r : QueryResult) : Z := snd (fst r).
Definition qr_status (r : QueryResult) : string := snd r.

(** ** Collaborators *)

(** The client library and the csv writer, over the outside world. *)
Class Web3Client (World : Type) : Type := {
  (** [Web3.is_address(value)] *)
  is_address : string -> reply bool;
  (** [Web3.to_checksum_address(value)] *)
  to_checksum_address : string -> reply string;
  (** [Web3(Web3.HTTPProvider(url))] followed by [w3.is_connected()] *)
  is_connected : World -> string -> reply bool * World;
  (** [contract.functions.<name>(<arg>).call()] *)
  call_function : World -> Contract -> string -> string -> reply Z * World;
  (** opening [path] for writing and sending it a header row and the rows *)
  csv_write : World -> string -> list string -> list QueryResult -> reply unit * World
}.

(** What the run does to the outside, in order. *)
Inductive event : Type :=
| EvPrint (line : string)
| EvCall (c : Contract) (name arg : string)
| EvCsv (path : string) (header : list string) (rows : list QueryResult).

Record state (World : Type) : Type := mk_state {
  world : World;
  trace : list event
}.
Arguments mk_state {World} world trace.
Arguments world {World} s.
Arguments trace {World} s.

(** ** The monad of the script: state, exceptions and [sys.exit] *)

Inductive outcome (A : Type) : Type :=
| Return (a : A)
| Raise (e : exn)
| SysExit (code : Z).
Arguments Return {A} a.
Arguments Raise {A} e.
Arguments SysExit {A} code.

Section Monad.
Context {St : Type}.

Definition M (A : Type) : Type := St -> outcome A * St.

Definition ret {A} (a : A) : M A := fun s => (Return a, s).

Definition bind {A B} (m : M A) (k : A -> M B) : M B :=
  fun s =>
    match m s with
    | (Return a, s') => k a s'
    | (Raise e, s') => (Raise e, s')
    | (SysExit n, s') => (SysExit n, s')
    end.

Definition raise {A} (e : exn) : M A := fun s => (Raise e, s).

(** [sys.exit(code)] *)
Definition sys_exit {A} (code : Z) : M A := fun s => (SysExit code, s).

(** [try: m except ... as e: h e]; the handler decides which classes it
    takes and re-raises the others.  [sys.exit] is not an [Exception] and
    goes through. *)
Definition try_except {A} (m : M A) (h : exn -> M A) : M A :=
  fun s =>
    match m s with
    | (Raise e, s') => h e s'
    | r => r
    end.

(** A value or an exception of a pure library function. *)
Definition lift {A} (r : reply A) : M A :=
  match r with
  | Ok a => ret a
  | Err e => raise e
  end.

End Monad.

Declare Scope py_scope.
Delimit Scope py_scope with py.
Notation "x <- m ;; k" := (bind m (fun x => k))
  (at level 100, m at next level, right associativity) : py_scope.
Notation "m ;; k" := (bind m (fun _ => k))
  (at level 100, right associativity) : py_scope.
Local Open Scope py_scope.

(** ** The script *)

Section Script.
Context {World : Type} `{Web3Client World}.

Local Abbreviation Run := (@M (state World)).

(** [print(line)] *)
Definition print (line : string) : Run unit :=
  fun s => (Return tt, mk_state (world s) (trace s ++ [EvPrint line])).

(** [contract.functions.<name>(arg).call()], recorded in the trace. *)
Definition call (c : Contract) (name arg : string) : Run Z :=
  fun s =>
    let '(r, w) := call_function (world s) c name arg in
    lift r (mk_state w (trace s ++ [EvCall c name arg])).

(** lines 30-39 *)
Definition setup_web3 (rpc_url : string) : Run Web3 :=
  try_except
    (connected <- (fun s =>
                     let '(r, w) := is_connected (world s) rpc_url in
                     lift r (mk_state w (trace s))) ;;
     if negb connected
     then raise (mk_exn ConnectionError "Failed to connect to Ethereum node")
     else ret (mk_w3 rpc_url))
    (fun e =>
       if isinstance e Exception
       then print ("Error connecting to RPC endpoint: " ++ exn_str e) ;;
            sys_exit 1
       else raise e).

(** lines 70-75; the bare [except] takes everything. *)
Definition validate_address (address : string) : Run bool :=
  try_except (lift (is_address address)) (fun _ => ret false).

(** lines 77-99 *)
Definition query_uq_alloc (contract : Contract) (address : string)
  : Run QueryResult :=
  try_except
    (valid <- validate_address address ;;
     if negb valid
     then ret (address, 0, "Invalid address format")
     else
       checksum_address <- lift (to_checksum_address address) ;;
       allocation <- call contract "uqAlloc" checksum_address ;;
       ret (checksum_address, allocation, "Success"))
    (fun e =>
       if isinstance e ContractLogicError
       then ret (address, 0, "Contract error: " ++ exn_str e)
       else if isinstance e Web3Exception
       then ret (address, 0, "Web3 error: " ++ exn_str e)
       else if isinstance e Exception
       then ret (address, 0, "Error: " ++ exn_str e)
       else raise e).

(** lines 101-110 *)
Definition write_results_to_csv (results : list QueryResult)
           (output_path : string) : Run unit :=
  try_except
    ((fun s =>
        let header := ["address"; "uq_allocation"; "status"] in
        let '(r, w) := csv_write (world s) output_path header results in
        lift r (mk_state w (trace s ++ [EvCsv output_path header results]))) ;;
     print ("Results written to " ++ output_path))
    (fun e =>
       if isinstance e Exception
       then print ("Error writing to CSV: " ++ exn_str e)
       else raise e).

(** lines 185-188: the loop over [enumerate(addresses, 1)]; [total] is
    [len(addresses)], [i] the running index, [results] the list built so far. *)
Fixpoint query_each (contract : Contract) (total : Z) (i : Z)
         (addresses : list string) (results : list QueryResult)
  : Run (list QueryResult) :=
  match addresses with
  | [] => ret results
  | address :: rest =>
      print ("Querying " ++ str_int i ++ "/" ++ str_int total ++ ": " ++ address) ;;
      result <- query_uq_alloc contract address ;;
      query_each contract total (i + 1) rest (results ++ [result])
  end.

(** lines 183-188 *)
Definition query_all (contract : Contract) (addresses : list string)
  : Run (list QueryResult) :=
  query_each contract (len addresses) 1 addresses [].

(** lines 200-205: one table row per result. *)
Fixpoint print_rows (results : list QueryResult) : Run unit :=
  match results with
  | [] => ret tt
  | (address, allocation, status) :: rest =>
      (if String.eqb status "Success"
       then print (ljust address 45 ++ " " ++ ljust (str_int allocation) 15
                     ++ " " ++ status)
       else print (ljust address 45 ++ " " ++ ljust "N/A" 15 ++ " " ++ status)) ;;
      print_rows rest
  end.

(** lines 194-205 *)
Definition print_table (results : list QueryResult) : Run unit :=
  print (newline ++ repeat_char "="%char 80) ;;
  print "RESULTS:" ;;
  print (repeat_char "="%char 80) ;;
  print (ljust "Address" 45 ++ " " ++ ljust "Allocation" 15 ++ " " ++ "Status") ;;
  print (repeat_char "-"%char 80) ;;
  print_rows results.

(** line 208 *)
Definition successful_queries (results : list QueryResult) : Z :=
  sum (map (fun _ => 1)
           (filter (fun r => String.eqb (qr_status r) "Success") results)).

(** line 209 *)
Definition total_allocation (results : list QueryResult) : Z :=
  sum (map qr_allocation
           (filter (fun r => String.eqb (qr_status r) "Success") results)).

(** lines 211-215 *)
Definition print_summary (results : list QueryResult) : Run unit :=
  print (newline ++ "Summary:") ;;
  print ("  Total addresses queried: " ++ str_int (len results)) ;;
  print ("  Successful queries: " ++ str_int (successful_queries results)) ;;
  print ("  Failed queries: "
           ++ str_int (len results - successful_queries results)) ;;
  print ("  Total allocation found: " ++ str_int (total_allocation results)).

(** lines 165-215 of [main], from the resolved address list on
    ([args.addresses] or the rows loaded from [args.csv_file]).  The script
    returns nothing; the model returns the final value of its local
    [results]. *)
Definition main (addresses : list string) (output_csv : option string)
           (rpc_url : string) : Run (list QueryResult) :=
  match addresses with
  | [] => print "No addresses to query" ;; sys_exit 1
  | _ :: _ =>
      print ("Loaded " ++ str_int (len addresses) ++ " addresses to query") ;;
      print "Connecting to Optimism network..." ;;
      w3 <- setup_web3 rpc_url ;;
      address <- lift (to_checksum_address CONTRACT_ADDRESS) ;;
      let contract := mk_contract w3 address CONTRACT_ABI in
      print "Querying contract..." ;;
      results <- query_all contract addresses ;;
      match output_csv with
      | Some output_path =>
          if truthy output_path
          then write_results_to_csv results output_path
          else print_table results
      | None => print_table results
      end ;;
      print_summary results ;;
      ret results
  end.

End Script.

(** ** The address file and the command line *)

(** What opening and reading the address file gives: the verdict of
    [csv.Sniffer().has_header] with all the rows of [csv.reader] (the header
    row included), [FileNotFoundError], or any other exception raised on the
    way (by [open], the sniffer or the reader). *)
Inductive csv_reply : Type :=
| CsvRows (has_header : bool) (rows : list (list string))
| CsvNotFound
| CsvError (e : exn).

(** The csv reader and [str.strip], over the outside world. *)
Class CsvReader (World : Type) : Type := {
  (** [s.strip()] *)
  strip : string -> string;
  (** [open(csv_path, 'r', newline='')], the sniffer and the reader *)
  csv_read : World -> string -> csv_reply * World
}.

(** The parsed command line: the input group is required and exclusive,
    and [--addresses] takes one address or more ([nargs='+']). *)
Inductive input_args : Type :=
| ArgAddresses (first : string) (more : list string)
| ArgCsvFile (csv_file : string).

Record Args : Type := mk_args {
  args_input : input_args;
  args_output_csv : option string;
  args_rpc_url : string
}.

Section Loader.
Context {World : Type} `{Web3Client World} `{CsvReader World}.

Local Abbreviation Run := (@M (state World)).

(** lines 56-60: the loop over the rows; [addresses] is the list built so
    far. *)
Fixpoint collect_rows (rows : list (list string)) (addresses : list string)
  : list string :=
  match rows with
  | [] => addresses
  | row :: rest =>
      match row with
      | [] => collect_rows rest addresses
      | cell :: _ =>
          let address := strip cell in
          if truthy address
          then collect_rows rest (addresses ++ [address])
          else collect_rows rest addresses
      end
  end.

(** lines 41-68.  [next(reader)] on a reader without rows raises
    [StopIteration], whose [str] is empty; it is handled like any other
    exception. *)
Definition load_addresses_from_csv (csv_path : string) : Run (list string) :=
  fun s =>
    let '(r, w) := csv_read (world s) csv_path in
    let s' := mk_state w (trace s) in
    match r with
    | CsvRows has_header rows =>
        if has_header
        then match rows with
             | [] => (print "Error reading CSV file: " ;; sys_exit 1) s'
             | _ :: data => ret (collect_rows data []) s'
             end
        else ret (collect_rows rows []) s'
    | CsvNotFound =>
        (print ("Error: CSV file '" ++ csv_path ++ "' not found") ;;
         sys_exit 1) s'
    | CsvError e =>
        (if isinstance e Exception
         then print ("Error reading CSV file: " ++ exn_str e) ;; sys_exit 1
         else raise e) s'
    end.

(** lines 157-215: [main] from the parsed arguments on. *)
Definition main_cli (args : Args) : Run (list QueryResult) :=
  addresses <- match args_input args with
               | ArgAddresses first more => ret (first :: more)
               | ArgCsvFile csv_file => load_addresses_from_csv csv_file
               end ;;
  main addresses (args_output_csv args) (args_rpc_url args).

End Loader.

(** ** A test double for the collaborators

    [Mock] is a stand-in client used to run the script on concrete inputs.
    It makes no claim about the real library: an address is taken as valid
    when it is [0x] followed by 40 hex digits, the canonical form upper-cases
    the digits, and the chain answers by a fixed table.  Its world counts the
    calls served. *)

Module Mock.

Definition is_hex_digit (c : ascii) : bool :=
  let n := nat_of_ascii c in
  ((48 <=? n) && (n <=? 57) || (65 <=? n) && (n <=? 70)
   || (97 <=? n) && (n <=? 102))%nat.

Fixpoint all_hex (s : string) : bool :=
  match s with
  | EmptyString => true
  | String c s' => is_hex_digit c && all_hex s'
  end.

Definition hex_address (s : string) : bool :=
  match s with
  | String "0" (String "x" digits) =>
      (String.length digits =? 40)%nat && all_hex digits
  | _ => false
  end.

Definition upper (c : ascii) : ascii :=
  let n := nat_of_ascii c in
  if ((97 <=? n) && (n <=? 102))%nat then ascii_of_nat (n - 32) else c.

Fixpoint upper_all (s : string) : string :=
  match s with
  | EmptyString => EmptyString
  | String c s' => String (upper c) (upper_all s')
  end.

Definition canonical (s : string) : string :=
  match s with
  | String "0" (String "x" digits) => String "0" (String "x" (upper_all digits))
  | _ => s
  end.

Definition holder : string := "0xabcdef0123456789abcdef0123456789abcdef01".
Definition reverting : string := "0x00000000000000000000000000000000000000aa".
Definition unreachable : string := "0x00000000000000000000000000000000000000bb".
Definition broken : string := "0x00000000000000000000000000000000000000cc".
(** An address without letters: its canonical form is the address itself. *)
Definition numeric : string := "0x1234567890123456789012345678901234567890".

Definition answer (arg : string) : reply Z :=
  if String.eqb arg (canonical holder) then Ok 1000
  else if String.eqb arg (canonical reverting)
  then Err (mk_exn ContractLogicError "execution reverted")
  else if String.eqb arg (canonical unreachable)
  then Err (mk_exn Web3Exception "bad response")
  else if String.eqb arg (canonical broken)
  then Err (mk_exn Exception "timed out")
  else if String.eqb arg (canonical numeric)
  then Err (mk_exn Web3Exception "no response")
  else Ok 0.

#[export] Instance client : Web3Client nat := {|
  is_address := fun s =>
    if String.eqb s "" then Err (mk_exn Exception "empty") else Ok (hex_address s);
  to_checksum_address := fun s =>
    if hex_address s then Ok (canonical s)
    else Err (mk_exn Exception "not an address");
  is_connected := fun w _ => (Ok true, w);
  call_function := fun w _ _ arg => (answer arg, S w);
  csv_write := fun w _ _ _ => (Ok tt, w)
|}.

(** A second double whose chain answers with the number of calls served so
    far: a data source that is not deterministic. *)
Definition drifting : Web3Client nat := {|
  is_address := fun s => Ok (hex_address s);
  to_checksum_address := fun s => Ok (canonical s);
  is_connected := fun w _ => (Ok true, w);
  call_function := fun w _ _ _ => (Ok (Z.of_nat w), S w);
  csv_write := fun w _ _ _ => (Ok tt, w)
|}.

Definition start : state nat := mk_state O [].

Definition contract : Contract :=
  mk_contract (mk_w3 OPTIMISM_RPC_URL) (canonical CONTRACT_ADDRESS) CONTRACT_ABI.

End Mock.

(** More doubles: clients whose connection or csv writer fails, and a
    reader over three files. *)
Module Doubles.

(** The provider answers, but the node is not connected. *)
Definition offline : Web3Client nat := {|
  is_address := @is_address nat Mock.client;
  to_checksum_address := @to_checksum_address nat Mock.client;
  is_connected := fun w _ => (Ok false, w);
  call_function := @call_function nat Mock.client;
  csv_write := @csv_write nat Mock.client
|}.

(** The output file cannot be written. *)
Definition readonly : Web3Client nat := {|
  is_address := @is_address nat Mock.client;
  to_checksum_address := @to_checksum_address nat Mock.client;
  is_connected := @is_connected nat Mock.client;
  call_function := @call_function nat Mock.client;
  csv_write := fun w _ _ _ => (Err (mk_exn Exception "Permission denied"), w)
|}.

Definition is_space (c : ascii) : bool :=
  let n := nat_of_ascii c in
  ((9 <=? n) && (n <=? 13) || (28 <=? n) && (n <=? 32))%nat.

Fixpoint lstrip (s : string) : string :=
  match s with
  | EmptyString => EmptyString
  | String c s' => if is_space c then lstrip s' else s
  end.

Fixpoint rstrip (s : string) : string :=
  match s with
  | EmptyString => EmptyString
  | String c s' =>
      match rstrip s' with
      | EmptyString => if is_space c then EmptyString else String c EmptyString
      | t => String c t
      end
  end.

Definition files : CsvReader nat := {|
  strip := fun s => rstrip (lstrip s);
  csv_read := fun w path =>
    if String.eqb path "addresses.csv"
    then (CsvRows true [ ["address"; "note"];
                         [(" " ++ Mock.holder ++ " ")%string; "first"];
                         [];
                         ["   "; "blank"];
                         ["not-an-address"] ], w)
    else if String.eqb path "blank.csv"
    then (CsvRows false [ []; ["  "]; [""; "x"] ], w)
    else if String.eqb path "locked.csv"
    then (CsvError (mk_exn Exception "Permission denied"), w)
    else (CsvNotFound, w)
|}.

End Doubles.

(** ** The words of the specification *)

(** The error taxonomy of the specification (section 7). *)
Inductive failure_kind : Type :=
| InvalidAddress
| ContractLogicFailure
| TransportFailure
| UnknownFailure.

(** The class of a raised exception, read off its own Python class: a
    [ContractLogicError] is a logic failure, any other [Web3Exception] a
    transport failure, everything else unknown. *)
Definition classify (e : exn) : failure_kind :=
  match exn_type e with
  | ContractLogicError => ContractLogicFailure
  | Web3Exception => TransportFailure
  | ConnectionError => UnknownFailure
  | Exception => UnknownFailure
  end.

(** The status marker each kind is reported under. *)
Definition marker (k : failure_kind) : string :=
  match k with
  | InvalidAddress => "Invalid address format"
  | ContractLogicFailure => "Contract error: "
  | TransportFailure => "Web3 error: "
  | UnknownFailure => "Error: "
  end.

(** Marker followed by the detail string of the exception. *)
Definition failure_status (e : exn) : string :=
  marker (classify e) ++ exn_str e.

Definition is_success (r : QueryResult) : bool :=
  String.eqb (qr_status r) "Success".

(** [count(r.status == "Success")] *)
Fixpoint spec_successful (results : list QueryResult) : Z :=
  match results with
  | [] => 0
  | r :: rest =>
      if is_success r then 1 + spec_successful rest else spec_successful rest
  end.

(** [sum(r.allocation for r in results if r.status == "Success")] *)
Fixpoint spec_total_allocation (results : list QueryResult) : Z :=
  match results with
  | [] => 0
  | r :: rest =>
      if is_success r
      then qr_allocation r + spec_total_allocation rest
      else spec_total_allocation rest
  end.

(** [len(results) - successful] *)
Definition spec_failed (results : list QueryResult) : Z :=
  Z.of_nat (List.length results) - spec_successful results.

Section Specification.
Context {World : Type} `{Web3Client World}.

(** [r] is what [query_uq_alloc] returns for [address] from some state. *)
Definition answers (contract : Contract) (address : string) (r : QueryResult)
  : Prop :=
  exists st st', query_uq_alloc contract address st = (Return r, st').

(** The four ways through [query_uq_alloc], with the state each one leaves. *)
Inductive query_path (contract : Contract) (address : string)
          (st : state World) : QueryResult -> state World -> Prop :=
| path_invalid :
    is_address address <> Ok true ->
    query_path contract address st (address, 0, marker InvalidAddress) st
| path_checksum_raises e :
    is_address address = Ok true ->
    to_checksum_address address = Err e ->
    query_path contract address st (address, 0, failure_status e) st
| path_call_raises checksum_address e w :
    is_address address = Ok true ->
    to_checksum_address address = Ok checksum_address ->
    call_function (world st) contract "uqAlloc" checksum_address = (Err e, w) ->
    query_path contract address st (address, 0, failure_status e)
      (mk_state w (trace st ++ [EvCall contract "uqAlloc" checksum_address]))
| path_success checksum_address allocation w :
    is_address address = Ok true ->
    to_checksum_address address = Ok checksum_address ->
    call_function (world st) contract "uqAlloc" checksum_address
      = (Ok allocation, w) ->
    query_path contract address st (checksum_address, allocation, "Success")
      (mk_state w (trace st ++ [EvCall contract "uqAlloc" checksum_address])).

(** The client decodes a return value by the ABI entry of the function: an
    output declared [uint256] is an integer in [0, 2^256). *)
Definition decodes_by_abi : Prop :=
  forall w (c : Contract) name arg v w',
    (exists f, In f (contract_abi c) /\ abi_name f = name
               /\ abi_outputs f = ["uint256"]) ->
    call_function w c name arg = (Ok v, w') ->
    0 <= v < 2 ^ 256.

(** A deterministic data source: the reply to a call does not depend on when
    it is made. *)
Definition deterministic_source : Prop :=
  forall w w' (c : Contract) name arg,
    fst (call_function w c name arg) = fst (call_function w' c name arg).

(** Every contract call recorded in [events] is the [uqAlloc] call of
    [contract] for an address of [addresses] that passed validation. *)
Definition calls_only_for_valid (contract : Contract) (addresses : list string)
           (events : list event) : Prop :=
  forall c name arg,
    In (EvCall c name arg) events ->
    c = contract /\ name = "uqAlloc" /\
    exists a, In a addresses /\ is_address a = Ok true
              /\ to_checksum_address a = Ok arg.

(** The address field read as a test for success: the field of every result
    is the checksummed form of its input exactly when the status is
    "Success", and the input itself otherwise. *)
Definition checksummed_exactly_on_success (contract : Contract)
           (addresses : list string) (st : state World) : Prop :=
  forall results st',
    query_all contract addresses st = (Return results, st') ->
    Forall2 (fun a r =>
               (to_checksum_address a = Ok (qr_address r)
                <-> qr_status r = "Success")
               /\ (qr_status r <> "Success" -> qr_address r = a))
            addresses results.

End Specification.

(** ** Reading the trace *)

Definition is_call (ev : event) : bool :=
  match ev with EvCall _ _ _ => true | _ => false end.

Definition is_csv (ev : event) : bool :=
  match ev with EvCsv _ _ _ => true | _ => false end.

Definition is_print (ev : event) : bool :=
  match ev with EvPrint _ => true | _ => false end.

(** What the allocation column of the table shows for a result. *)
Definition shown_allocation (r : QueryResult) : string :=
  if is_success r then str_int (qr_allocation r) else "N/A".

(** The five lines above the rows of the table. *)
Definition table_head : list event :=
  [ EvPrint (newline ++ repeat_char "="%char 80);
    EvPrint "RESULTS:";
    EvPrint (repeat_char "="%char 80);
    EvPrint (ljust "Address" 45 ++ " " ++ ljust "Allocation" 15 ++ " "
               ++ "Status");
    EvPrint (repeat_char "-"%char 80) ].

(** The five lines of the summary, with the figures of the specification. *)
Definition summary_lines (results : list QueryResult) : list event :=
  [ EvPrint (newline ++ "Summary:");
    EvPrint ("  Total addresses queried: "
               ++ str_int (Z.of_nat (List.length results)));
    EvPrint ("  Successful queries: " ++ str_int (spec_successful results));
    EvPrint ("  Failed queries: " ++ str_int (spec_failed results));
    EvPrint ("  Total allocation found: "
               ++ str_int (spec_total_allocation results)) ].

(** The line of one result: the address in full, then the allocation
    column, then the status, which starts right after a front part of
    [max 45 |address| + 1 + max 15 |shown| + 1] characters. *)
Definition row_of (r : QueryResult) (line : string) : Prop :=
  (exists rest, line = qr_address r ++ rest)
  /\ exists front,
      line = front ++ qr_status r
      /\ String.length front
         = (Nat.max 45 (String.length (qr_address r)) + 1
            + Nat.max 15 (String.length (shown_allocation r)) + 1)%nat.

(** The progress lines of the loop for [addresses], numbered from [i]. *)
Fixpoint progress_lines (total i : Z) (addresses : list string) : list event :=
  match addresses with
  | [] => []
  | address :: rest =>
      EvPrint ("Querying " ++ str_int i ++ "/" ++ str_int total ++ ": "
                 ++ address)
      :: progress_lines total (i + 1) rest
  end.

(** The three lines [main] prints before the loop. *)
Definition opening_lines (n : Z) : list event :=
  [ EvPrint ("Loaded " ++ str_int n ++ " addresses to query");
    EvPrint "Connecting to Optimism network...";
    EvPrint "Querying contract..." ].

(** The first cell of every row that has one. *)
Fixpoint first_cells (rows : list (list string)) : list string :=
  match rows with
  | [] => []
  | [] :: rest => first_cells rest
  | (cell :: _) :: rest => cell :: first_cells rest
  end.

Section Reading.
Context {World : Type} `{Web3Client World}.

(** The address passes validation and has a checksummed form: the contract
    is called for it. *)
Definition callable (address : string) : bool :=
  match is_address address, to_checksum_address address with
  | Ok true, Ok _ => true
  | _, _ => false
  end.

End Reading.

(** ** Properties *)

Lemma isinstance_Exception (e : exn) : isinstance e Exception = true.
Proof. destruct e as [[] msg]; reflexivity. Qed.


Lemma marker_not_success (k : failure_kind) (detail : string) :
  marker k ++ detail <> "Success".
Proof. destruct k; simpl; discriminate. Qed.


Lemma failure_status_not_success (e : exn) : failure_status e <> "Success".
Proof. apply marker_not_success. Qed.

Section Properties.
Context {World : Type} `{Web3Client World}.
Local Open Scope list_scope.

Implicit Types (st : state World) (contract : Contract) (address : string).

Lemma validate_address_eq address st :
  validate_address address st =
  (Return match is_address address with Ok b => b | Err _ => false end, st).
Proof.
  unfold validate_address, try_except, lift.
  destruct (is_address address) as [b | e]; reflexivity.
Qed.

(** The handler cascade of [query_uq_alloc] reports the exception under the
    marker of its own class, and takes every exception. *)
Lemma handler_returns address (e : exn) st :
  (if isinstance e ContractLogicError
   then ret (address, 0, ("Contract error: " ++ exn_str e)%string)
   else if isinstance e Web3Exception
        then ret (address, 0, ("Web3 error: " ++ exn_str e)%string)
        else if isinstance e Exception
             then ret (address, 0, ("Error: " ++ exn_str e)%string)
             else raise e) st
  = (Return (address, 0, failure_status e), st).
Proof. destruct e as [[] msg]; reflexivity. Qed.

(** [query_uq_alloc] always returns, along one of its four paths. *)
Lemma query_uq_alloc_path contract address st :
  exists r st',
    query_uq_alloc contract address st = (Return r, st')
    /\ query_path contract address st r st'.
Proof.
  unfold query_uq_alloc, try_except, bind.
  rewrite validate_address_eq.
  destruct (is_address address) as [[|] | e0] eqn:Hv; simpl.
  - unfold lift.
    destruct (to_checksum_address address) as [ca | e] eqn:Hc; simpl.
    + unfold call.
      destruct (call_function (world st) contract "uqAlloc" ca)
        as [[v | e] w] eqn:Hcall; simpl.
      * eexists _, _; split; [reflexivity |].
        now apply path_success.
      * rewrite handler_returns.
        eexists _, _; split; [reflexivity |].
        eapply path_call_raises; eassumption.
    + rewrite handler_returns.
      eexists _, _; split; [reflexivity |].
      now apply path_checksum_raises.
  - eexists _, _; split; [reflexivity |].
    apply path_invalid. congruence.
  - eexists _, _; split; [reflexivity |].
    apply path_invalid. congruence.
Qed.

Lemma query_uq_alloc_inv contract address st r st' :
  query_uq_alloc contract address st = (Return r, st') ->
  query_path contract address st r st'.
Proof.
  intros Heq.
  destruct (query_uq_alloc_path contract address st) as (r0 & st0 & E & P).
  rewrite E in Heq. injection Heq as -> ->. exact P.
Qed.

Lemma answers_path contract address r :
  answers contract address r <->
  exists st st', query_path contract address st r st'.
Proof.
  split.
  - intros (st & st' & E). exists st, st'. now apply query_uq_alloc_inv.
  - intros (st & st' & P). exists st, st'.
    destruct (query_uq_alloc_path contract address st) as (r0 & st0 & E & P0).
    rewrite E. clear E.
    destruct P; inversion P0; subst; congruence.
Qed.

(** What one query adds to the trace: nothing, or its one contract call. *)
Lemma query_path_trace contract address st r st' :
  query_path contract address st r st' ->
  exists events,
    trace st' = trace st ++ events
    /\ calls_only_for_valid contract [address] events.
Proof.
  assert (Hnil : calls_only_for_valid contract [address] []).
  { intros c n a []. }
  assert (Hone : forall ca,
             is_address address = Ok true ->
             to_checksum_address address = Ok ca ->
             calls_only_for_valid contract [address]
               [EvCall contract "uqAlloc" ca]).
  { intros ca Hv Hc c n a [Hin | []]. injection Hin as <- <- <-.
    repeat split. exists address. simpl. auto. }
  intros [ | e | ca e w | ca v w ]; simpl.
  - exists []. now rewrite app_nil_r.
  - exists []. now rewrite app_nil_r.
  - eexists; split; [reflexivity | auto].
  - eexists; split; [reflexivity | auto].
Qed.

Lemma calls_only_for_valid_app contract l1 l2 ev1 ev2 :
  calls_only_for_valid contract l1 ev1 ->
  calls_only_for_valid contract l2 ev2 ->
  calls_only_for_valid contract (l1 ++ l2) (ev1 ++ ev2).
Proof.
  intros H1 H2 c n arg Hin.
  apply in_app_or in Hin as [Hin | Hin].
  - destruct (H1 _ _ _ Hin) as (-> & -> & a & Ha & Hv).
    repeat split. exists a. split; [apply in_or_app; auto | exact Hv].
  - destruct (H2 _ _ _ Hin) as (-> & -> & a & Ha & Hv).
    repeat split. exists a. split; [apply in_or_app; auto | exact Hv].
Qed.

(** The loop invariant of lines 185-188: the loop returns, it extends the
    list built so far by one answer per address, in order, and the only
    contract calls it makes are for addresses that passed validation. *)
Lemma query_each_run contract total addresses :
  forall i results st,
  exists rs st' events,
    query_each contract total i addresses results st
      = (Return (results ++ rs), st')
    /\ Forall2 (answers contract) addresses rs
    /\ trace st' = trace st ++ events
    /\ calls_only_for_valid contract addresses
         (filter (fun ev => match ev with EvCall _ _ _ => true | _ => false end)
                 events).
Proof.
  induction addresses as [| address rest IH]; intros i results st.
  - exists [], st, []. simpl. rewrite !app_nil_r.
    split; [reflexivity |]. split; [constructor |]. split; [reflexivity |].
    intros ? ? ? [].
  - cbn [query_each]. unfold bind at 1. unfold print at 1.
    set (st0 := mk_state (world st) (trace st ++ [EvPrint _])).
    unfold bind at 1.
    destruct (query_uq_alloc_path contract address st0) as (r & st1 & E & P).
    rewrite E.
    destruct (IH (i + 1) (results ++ [r]) st1) as (rs & st2 & ev & E2 & F & T & C).
    destruct (query_path_trace _ _ _ _ _ P) as (ev1 & T1 & C1).
    exists (r :: rs), st2,
      (EvPrint ("Querying " ++ str_int i ++ "/" ++ str_int total ++ ": "
                  ++ address)%string :: ev1 ++ ev).
    rewrite E2, <- app_assoc. simpl.
    split; [reflexivity |]. split.
    + constructor; [| exact F]. now exists st0, st1.
    + split.
      * rewrite T, T1. subst st0. simpl. now rewrite <- !app_assoc.
      * rewrite filter_app.
        apply (calls_only_for_valid_app contract [address] rest); [| exact C].
        intros c n a Hin. apply filter_In in Hin as [Hin _]. now apply C1.
Qed.

Lemma query_all_run contract addresses st :
  exists results st' events,
    query_all contract addresses st = (Return results, st')
    /\ Forall2 (answers contract) addresses results
    /\ trace st' = trace st ++ events
    /\ calls_only_for_valid contract addresses
         (filter (fun ev => match ev with EvCall _ _ _ => true | _ => false end)
                 events).
Proof.
  unfold query_all.
  destruct (query_each_run contract (len addresses) addresses 1 [] st)
    as (rs & st' & ev & E & F & T & C).
  exists rs, st', ev. auto.
Qed.

Lemma Forall2_nth_error {A B} (R : A -> B -> Prop) (l : list A) (l' : list B) :
  Forall2 R l l' ->
  forall k a, nth_error l k = Some a ->
              exists b, nth_error l' k = Some b /\ R a b.
Proof.
  induction 1 as [| x y l l' Hxy _ IH]; intros [| k] a Hk; simpl in *;
    try discriminate.
  - injection Hk as <-. eauto.
  - eauto.
Qed.

Lemma Forall2_right {A B} (R : A -> B -> Prop) (Q : B -> Prop)
      (l : list A) (l' : list B) :
  (forall a b, R a b -> Q b) -> Forall2 R l l' -> Forall Q l'.
Proof. intros HRQ; induction 1; constructor; eauto. Qed.

(** *** What holds of every single answer *)

Lemma path_status_success contract address st r st' :
  query_path contract address st r st' ->
  qr_status r = "Success"%string ->
  exists checksum_address allocation w,
    r = (checksum_address, allocation, "Success"%string)
    /\ is_address address = Ok true
    /\ to_checksum_address address = Ok checksum_address
    /\ call_function (world st) contract "uqAlloc" checksum_address
       = (Ok allocation, w).
Proof.
  intros [ Hv | e Hv Hc | ca e w Hv Hc Hcall | ca v w Hv Hc Hcall ] Hs;
    cbn in Hs.
  - discriminate.
  - now apply failure_status_not_success in Hs.
  - now apply failure_status_not_success in Hs.
  - exists ca, v, w. auto.
Qed.

Lemma path_status_failure contract address st r st' :
  query_path contract address st r st' ->
  qr_status r <> "Success"%string ->
  exists k detail, r = (address, 0, (marker k ++ detail)%string).
Proof.
  intros [ Hv | e Hv Hc | ca e w Hv Hc Hcall | ca v w Hv Hc Hcall ] Hs.
  - exists InvalidAddress, ""%string. reflexivity.
  - exists (classify e), (exn_str e). reflexivity.
  - exists (classify e), (exn_str e). reflexivity.
  - now contradiction Hs.
Qed.

Lemma uqAlloc_declared_uint256 :
  exists f, In f CONTRACT_ABI /\ abi_name f = "uqAlloc"%string
            /\ abi_outputs f = ["uint256"%string].
Proof. eexists; split; [left; reflexivity | split; reflexivity]. Qed.

Lemma answers_allocation contract address r :
  decodes_by_abi ->
  contract_abi contract = CONTRACT_ABI ->
  answers contract address r ->
  (qr_status r = "Success"%string -> 0 <= qr_allocation r)
  /\ (qr_status r <> "Success"%string -> qr_allocation r = 0).
Proof.
  intros Habi Hc (st & st' & E). apply query_uq_alloc_inv in E. split; intros Hs.
  - destruct (path_status_success _ _ _ _ _ E Hs)
      as (ca & v & w & -> & _ & _ & Hcall).
    cbn. eapply Habi in Hcall; [lia |].
    rewrite Hc. exact uqAlloc_declared_uint256.
  - destruct (path_status_failure _ _ _ _ _ E Hs) as (k & d & ->).
    reflexivity.
Qed.

Lemma answers_address_field contract address r :
  answers contract address r ->
  (qr_status r = "Success"%string ->
   to_checksum_address address = Ok (qr_address r))
  /\ (qr_status r <> "Success"%string -> qr_address r = address).
Proof.
  intros (st & st' & E). apply query_uq_alloc_inv in E. split; intros Hs.
  - destruct (path_status_success _ _ _ _ _ E Hs)
      as (ca & v & w & -> & _ & Hc & _).
    exact Hc.
  - destruct (path_status_failure _ _ _ _ _ E Hs) as (k & d & ->).
    reflexivity.
Qed.

Lemma answers_functional contract address r1 r2 :
  deterministic_source ->
  answers contract address r1 -> answers contract address r2 -> r1 = r2.
Proof.
  intros Hdet (s1 & s1' & E1) (s2 & s2' & E2).
  apply query_uq_alloc_inv in E1, E2.
  destruct E1 as [ Hv | e Hv Hc | ca e w Hv Hc Hcall | ca v w Hv Hc Hcall ];
    inversion E2 as [ Hv' | e' Hv' Hc' | ca' e' w' Hv' Hc' Hcall'
                    | ca' v' w' Hv' Hc' Hcall' ];
    subst; try congruence;
    assert (ca' = ca) by congruence; subst ca';
    pose proof (Hdet (world s1) (world s2) contract "uqAlloc"%string ca) as D;
    rewrite Hcall, Hcall' in D; cbn in D; congruence.
Qed.

(** *** The batch runner *)

(** C1. For every input list of raw address strings the batch runner returns
    exactly one QueryResult per input address, and the results are in the
    order of the input: the result at position [k] is what [query_uq_alloc]
    returned for the address at position [k]. *)
Theorem batch_one_result_per_address contract addresses st :
  exists results st',
    query_all contract addresses st = (Return results, st')
    /\ List.length results = List.length addresses
    /\ Forall2 (answers contract) addresses results
    /\ forall k a, nth_error addresses k = Some a ->
                   exists r, nth_error results k = Some r
                             /\ answers contract a r.
Proof.
  destruct (query_all_run contract addresses st) as (rs & st' & ev & E & F & _).
  exists rs, st'. split; [exact E |]. split; [| split; [exact F |]].
  - symmetry. eapply Forall2_length; eassumption.
  - now apply Forall2_nth_error.
Qed.

(** C2. Every QueryResult the batch runner produces has a non-negative
    allocation when its status is "Success" and allocation 0 under any other
    status; the contract handle carries the script's ABI and the client
    decodes the [uint256] output as the ABI says. *)
Theorem allocation_by_status contract addresses st :
  decodes_by_abi ->
  contract_abi contract = CONTRACT_ABI ->
  exists results st',
    query_all contract addresses st = (Return results, st')
    /\ Forall (fun r =>
                 (qr_status r = "Success"%string -> 0 <= qr_allocation r)
                 /\ (qr_status r <> "Success"%string -> qr_allocation r = 0))
              results.
Proof.
  intros Habi Hc.
  destruct (query_all_run contract addresses st) as (rs & st' & ev & E & F & _).
  exists rs, st'. split; [exact E |].
  eapply Forall2_right; [| exact F].
  intros a r Ha. now apply (answers_allocation contract a).
Qed.

(** C4. An address that fails validation gets the QueryResult
    [(address, 0, "Invalid address format")]; its query leaves the world and
    the trace as they were, so no contract call is attempted for it; and the
    batch goes on: all later addresses get their results, and every contract
    call of the run belongs to one of the other addresses. *)
Theorem invalid_address_recorded_without_call contract pre address post st :
  validate_address address st = (Return false, st) ->
  (forall s, query_uq_alloc contract address s
             = (Return (address, 0, "Invalid address format"%string), s))
  /\ exists rs_pre rs_post st' events,
      query_all contract (pre ++ address :: post) st
        = (Return (rs_pre ++ (address, 0, "Invalid address format"%string)
                            :: rs_post), st')
      /\ Forall2 (answers contract) pre rs_pre
      /\ Forall2 (answers contract) post rs_post
      /\ trace st' = trace st ++ events
      /\ forall c name arg,
           In (EvCall c name arg) events ->
           exists a, In a (pre ++ post) /\ is_address a = Ok true
                     /\ to_checksum_address a = Ok arg.
Proof.
  intros Hinv. rewrite validate_address_eq in Hinv.
  assert (Hv : is_address address <> Ok true).
  { intros Hv. rewrite Hv in Hinv. discriminate. }
  assert (Hq : forall s, query_uq_alloc contract address s
                         = (Return (address, 0, "Invalid address format"%string), s)).
  { intros s.
    destruct (query_uq_alloc_path contract address s) as (r & s' & E & P).
    rewrite E. destruct P; try contradiction. reflexivity. }
  split; [exact Hq |].
  destruct (query_all_run contract (pre ++ address :: post) st)
    as (rs & st' & ev & E & F & T & C).
  apply Forall2_app_inv_l in F as (rs_pre & rs' & Fpre & F' & ->).
  inversion F' as [| a r l rs_post Ha Fpost]; subst.
  destruct Ha as (s & s' & Ea). rewrite Hq in Ea. injection Ea as <- _.
  exists rs_pre, rs_post, st', ev.
  split; [exact E |]. split; [exact Fpre |]. split; [exact Fpost |].
  split; [exact T |].
  intros c name arg Hin.
  destruct (C c name arg) as (_ & _ & a & Hin_a & Hva & Hca).
  { apply filter_In. auto. }
  exists a. split; [| auto].
  apply in_app_or in Hin_a as [Hin_a | [<- | Hin_a]].
  - apply in_or_app; auto.
  - contradiction.
  - apply in_or_app; auto.
Qed.




(** C8. With an empty address list the run prints "No addresses to query"
    and exits with status 1: it returns no result list, the message is the
    only event of the run (no contract call, no table, no csv file, no
    summary) and the world is untouched. *)
Theorem empty_input_is_fatal (output_csv : option string) (rpc_url : string) st :
  exists st',
    main [] output_csv rpc_url st = (SysExit 1, st')
    /\ world st' = world st
    /\ trace st' = trace st ++ [EvPrint "No addresses to query"]
    /\ (forall results s,
          main [] output_csv rpc_url st <> (Return results, s))
    /\ (forall c name arg, ~ In (EvCall c name arg)
                                [EvPrint "No addresses to query"])
    /\ (forall path header rows, ~ In (EvCsv path header rows)
                                      [EvPrint "No addresses to query"]).
Proof.
  eexists. split; [reflexivity |].
  split; [reflexivity |]. split; [reflexivity |].
  split; [intros results s; discriminate |].
  split.
  - intros c name arg [Hin | []]. discriminate Hin.
  - intros path header rows [Hin | []]. discriminate Hin.
Qed.

(** C9. With a deterministic data source, two positions of the input that
    hold the same address hold identical QueryResults in the results. *)
Theorem same_address_same_result contract addresses st results st' i j a :
  deterministic_source ->
  query_all contract addresses st = (Return results, st') ->
  nth_error addresses i = Some a ->
  nth_error addresses j = Some a ->
  exists r, nth_error results i = Some r /\ nth_error results j = Some r.
Proof.
  intros Hdet E Hi Hj.
  destruct (query_all_run contract addresses st) as (rs & s & ev & E' & F & _).
  rewrite E in E'. injection E' as <- _.
  destruct (Forall2_nth_error _ _ _ F i a Hi) as (ri & Eri & Ai).
  destruct (Forall2_nth_error _ _ _ F j a Hj) as (rj & Erj & Aj).
  exists ri. split; [exact Eri |].
  now rewrite (answers_functional contract a ri rj Hdet Ai Aj).
Qed.

(** C10. In the batch, the address field of a result is the checksummed
    form of its input address when the status is "Success", and the input
    string itself under any other status, also when the failure came after
    validation. *)
Theorem address_field_by_status contract addresses st :
  exists results st',
    query_all contract addresses st = (Return results, st')
    /\ Forall2 (fun a r =>
                  (qr_status r = "Success"%string ->
                   to_checksum_address a = Ok (qr_address r))
                  /\ (qr_status r <> "Success"%string -> qr_address r = a))
               addresses results.
Proof.
  destruct (query_all_run contract addresses st) as (rs & st' & ev & E & F & _).
  exists rs, st'. split; [exact E |].
  eapply Forall2_impl; [| exact F].
  intros a r Ha. now apply (answers_address_field contract a).
Qed.

(** *** The summary and the whole run *)

Lemma fold_left_add_from (xs : list Z) (acc : Z) :
  fold_left Z.add xs acc = acc + fold_left Z.add xs 0.
Proof.
  revert acc. induction xs as [| y ys IH]; intros acc; simpl.
  - lia.
  - rewrite (IH (acc + y)), (IH y). lia.
Qed.

Lemma sum_cons (x : Z) (xs : list Z) : sum (x :: xs) = x + sum xs.
Proof. unfold sum. simpl. apply fold_left_add_from. Qed.

Lemma successful_queries_spec (results : list QueryResult) :
  successful_queries results = spec_successful results.
Proof.
  unfold successful_queries.
  induction results as [| r rest IH]; [reflexivity |].
  cbn [filter spec_successful]. unfold is_success.
  destruct (String.eqb (qr_status r) "Success").
  - cbn [map]. now rewrite sum_cons, IH.
  - exact IH.
Qed.

Lemma total_allocation_spec (results : list QueryResult) :
  total_allocation results = spec_total_allocation results.
Proof.
  unfold total_allocation.
  induction results as [| r rest IH]; [reflexivity |].
  cbn [filter spec_total_allocation]. unfold is_success.
  destruct (String.eqb (qr_status r) "Success").
  - cbn [map]. now rewrite sum_cons, IH.
  - exact IH.
Qed.

(** C3. The run summary computed from the results: the number of successes
    is the count of results with status "Success", the total allocation is
    the sum of their allocations, the number of failures is the number of
    results minus the successes, and these are the figures the summary
    prints. *)
Theorem summary_matches_results (results : list QueryResult) st :
  successful_queries results = spec_successful results
  /\ total_allocation results = spec_total_allocation results
  /\ len results - successful_queries results = spec_failed results
  /\ print_summary results st
     = (Return tt,
        mk_state (world st)
          (trace st ++
           [ EvPrint (newline ++ "Summary:")%string;
             EvPrint ("  Total addresses queried: "
                        ++ str_int (Z.of_nat (List.length results)))%string;
             EvPrint ("  Successful queries: "
                        ++ str_int (spec_successful results))%string;
             EvPrint ("  Failed queries: "
                        ++ str_int (spec_failed results))%string;
             EvPrint ("  Total allocation found: "
                        ++ str_int (spec_total_allocation results))%string ])).
Proof.
  pose proof (successful_queries_spec results) as Hs.
  pose proof (total_allocation_spec results) as Ht.
  split; [exact Hs |]. split; [exact Ht |].
  split; [unfold spec_failed, len; now rewrite Hs |].
  unfold print_summary, bind, print. cbn [world trace].
  rewrite Hs, Ht. unfold spec_failed, len.
  now rewrite <- !app_assoc.
Qed.

Lemma bind_inv {St A B} (m : @M St A) (k : A -> @M St B) s b s' :
  bind m k s = (Return b, s') ->
  exists a s1, m s = (Return a, s1) /\ k a s1 = (Return b, s').
Proof.
  unfold bind. destruct (m s) as [[a | e | n] s1]; try discriminate. eauto.
Qed.

(** A run of [main] that returns went through the loop over [addresses]
    with a contract handle carrying the script's ABI, and ended with the
    summary of the very results it returns. *)
Lemma main_inv addresses output_csv rpc_url st results st' :
  main addresses output_csv rpc_url st = (Return results, st') ->
  exists contract s0 s1 s2,
    contract_abi contract = CONTRACT_ABI
    /\ query_all contract addresses s0 = (Return results, s1)
    /\ print_summary results s2 = (Return tt, st').
Proof.
  destruct addresses as [| a rest]; [discriminate |].
  unfold main. intros Hm.
  apply bind_inv in Hm as (? & ? & _ & Hm).
  apply bind_inv in Hm as (? & ? & _ & Hm).
  apply bind_inv in Hm as (w3 & ? & _ & Hm).
  apply bind_inv in Hm as (ca & ? & _ & Hm). cbv zeta in Hm.
  apply bind_inv in Hm as (? & s0 & _ & Hm).
  apply bind_inv in Hm as (rs & s1 & Hq & Hm).
  apply bind_inv in Hm as (? & s2 & _ & Hm).
  apply bind_inv in Hm as ([] & ? & Hp & Hm).
  injection Hm as <- <-.
  exists (mk_contract w3 ca CONTRACT_ABI), s0, s1, s2. auto.
Qed.

Lemma print_rows_returns (results : list QueryResult) st :
  exists st', print_rows results st = (Return tt, st').
Proof.
  revert st. induction results as [| [[a n] s] rest IH]; intros st.
  - now exists st.
  - cbn [print_rows]. unfold bind.
    destruct (String.eqb s "Success"); unfold print; apply IH.
Qed.

Lemma write_results_to_csv_returns (results : list QueryResult)
      (output_path : string) st :
  exists st', write_results_to_csv results output_path st = (Return tt, st').
Proof.
  unfold write_results_to_csv, try_except, bind.
  destruct (csv_write (world st) output_path _ results) as [[[] | e] w]; cbn.
  - unfold print. eauto.
  - rewrite isinstance_Exception. unfold print. eauto.
Qed.

Lemma bind_eq {St A B} (m : @M St A) (k : A -> @M St B) s a s1 :
  m s = (Return a, s1) -> bind m k s = k a s1.
Proof. intros E. unfold bind. now rewrite E. Qed.

Lemma setup_web3_connected (rpc_url : string) st w :
  is_connected (world st) rpc_url = (Ok true, w) ->
  setup_web3 rpc_url st = (Return (mk_w3 rpc_url), mk_state w (trace st)).
Proof.
  intros Hconn. unfold setup_web3, try_except, bind. now rewrite Hconn.
Qed.

Lemma print_table_returns (results : list QueryResult) st :
  exists st', print_table results st = (Return tt, st').
Proof. unfold print_table, bind, print. apply print_rows_returns. Qed.

Lemma print_summary_returns (results : list QueryResult) st :
  exists st', print_summary results st = (Return tt, st').
Proof. unfold print_summary, bind, print. eauto. Qed.

(** Once the connection is up and the contract address is accepted, [main]
    runs to its end on any non-empty list. *)
Lemma main_returns a rest output_csv rpc_url st w checksum :
  is_connected (world st) rpc_url = (Ok true, w) ->
  to_checksum_address CONTRACT_ADDRESS = Ok checksum ->
  exists results st',
    main (a :: rest) output_csv rpc_url st = (Return results, st').
Proof.
  intros Hconn Hck. unfold main.
  erewrite bind_eq by reflexivity.
  erewrite bind_eq by reflexivity.
  erewrite bind_eq by (apply setup_web3_connected; exact Hconn).
  rewrite Hck. erewrite bind_eq by reflexivity. cbv zeta.
  erewrite bind_eq by reflexivity.
  match goal with
  | |- context [query_all ?c ?l] =>
      match goal with
      | |- context [bind _ _ ?s] =>
          destruct (query_all_run c l s) as (rs & s1 & ev & E & _)
      end
  end.
  erewrite bind_eq by exact E.
  assert (Hout : exists s2,
             match output_csv with
             | Some output_path =>
                 if truthy output_path
                 then write_results_to_csv rs output_path
                 else print_table rs
             | None => print_table rs
             end s1 = (Return tt, s2)).
  { destruct output_csv as [path |]; [| apply print_table_returns].
    destruct (truthy path);
      [apply write_results_to_csv_returns | apply print_table_returns]. }
  destruct Hout as (s2 & Hout). erewrite bind_eq by exact Hout.
  destruct (print_summary_returns rs s2) as (s3 & Hsum).
  erewrite bind_eq by exact Hsum.
  now exists rs, s3.
Qed.

End Properties.

(** ** The script on concrete inputs *)

Section Runs.
Import Mock.
Local Open Scope list_scope.

(** The scenario of the specification: a valid address holding 1000 and a
    string that is no address. *)
Example scenario_valid_then_invalid :
  fst (main [holder; "not-an-address"%string] None OPTIMISM_RPC_URL start)
  = Return [ (canonical holder, 1000, "Success"%string);
             ("not-an-address"%string, 0, "Invalid address format"%string) ]
  /\ skipn 14 (trace (snd (main [holder; "not-an-address"%string] None
                             OPTIMISM_RPC_URL start)))
     = [ EvPrint "  Total addresses queried: 2";
         EvPrint "  Successful queries: 1";
         EvPrint "  Failed queries: 1";
         EvPrint "  Total allocation found: 1000" ].
Proof. split; vm_compute; reflexivity. Qed.

(** One address of each failure kind; the batch still returns six results. *)
Example scenario_all_failure_kinds :
  fst (query_all contract
         [holder; reverting; unreachable; broken; ""%string; holder] start)
  = Return [ (canonical holder, 1000, "Success"%string);
             (reverting, 0, "Contract error: execution reverted"%string);
             (unreachable, 0, "Web3 error: bad response"%string);
             (broken, 0, "Error: timed out"%string);
             (""%string, 0, "Invalid address format"%string);
             (canonical holder, 1000, "Success"%string) ].
Proof. vm_compute. reflexivity. Qed.

(** A table row: the fields are padded to 45 and 15 columns. *)
Example scenario_table_row :
  snd (print_rows [ (canonical holder, 1000, "Success"%string) ] start)
  = mk_state O
      [ EvPrint
          "0xABCDEF0123456789ABCDEF0123456789ABCDEF01    1000            Success" ].
Proof. vm_compute. reflexivity. Qed.

(** Without a deterministic source the same address may get two different
    results in one run. *)
Example drifting_source_differs :
  fst (@query_all nat drifting contract [holder; holder] start)
  = Return [ (canonical holder, 0, "Success"%string);
             (canonical holder, 1, "Success"%string) ].
Proof. vm_compute. reflexivity. Qed.

(** An input that already is in canonical form keeps that form in the
    address field when its call fails, so the field being canonical does not
    tell that the query succeeded. *)
Lemma canonical_input_kept_on_failure :
  ~ checksummed_exactly_on_success contract [numeric] start.
Proof.
  intros Hclaim.
  specialize (Hclaim [ (numeric, 0, "Web3 error: no response"%string) ]
                     (snd (query_all contract [numeric] start))).
  assert (E : query_all contract [numeric] start
              = (Return [ (numeric, 0, "Web3 error: no response"%string) ],
                 snd (query_all contract [numeric] start)))
    by (vm_compute; reflexivity).
  specialize (Hclaim E).
  inversion Hclaim as [| a r l l' [Hiff _] _]; subst.
  assert (Hs : qr_status (numeric, 0, "Web3 error: no response"%string)
               = "Success"%string)
    by (apply Hiff; reflexivity).
  discriminate Hs.
Qed.

Lemma mock_decodes_by_abi : @decodes_by_abi nat client.
Proof.
  intros w c name arg v w' _ Hcall. cbn in Hcall.
  injection Hcall as Hans _. unfold answer in Hans.
  repeat match type of Hans with
         | (if ?b then _ else _) = _ => destruct b
         end;
    try discriminate; injection Hans as <-; split; try lia; reflexivity.
Qed.

Lemma mock_deterministic : @deterministic_source nat client.
Proof. intros w w' c name arg. reflexivity. Qed.

Lemma allocation_by_status_witness :
  @decodes_by_abi nat client
  /\ contract_abi contract = CONTRACT_ABI
  /\ exists results st',
      query_all contract [holder; reverting; "zz"%string] start
        = (Return results, st')
      /\ Forall (fun r =>
                   (qr_status r = "Success"%string -> 0 <= qr_allocation r)
                   /\ (qr_status r <> "Success"%string -> qr_allocation r = 0))
                results.
Proof.
  split; [exact mock_decodes_by_abi |]. split; [reflexivity |].
  apply (allocation_by_status contract [holder; reverting; "zz"%string] start).
  - exact mock_decodes_by_abi.
  - reflexivity.
Defined.

Lemma invalid_address_recorded_without_call_witness :
  validate_address "not-an-address" start = (Return false, start)
  /\ ((forall s, query_uq_alloc contract "not-an-address" s
                 = (Return ("not-an-address"%string, 0,
                            "Invalid address format"%string), s))
      /\ exists rs_pre rs_post st' events,
          query_all contract ([holder] ++ "not-an-address"%string :: [reverting])
                    start
            = (Return (rs_pre ++ ("not-an-address"%string, 0,
                                  "Invalid address format"%string)
                                :: rs_post), st')
          /\ Forall2 (answers contract) [holder] rs_pre
          /\ Forall2 (answers contract) [reverting] rs_post
          /\ trace st' = trace start ++ events
          /\ forall c name arg,
               In (EvCall c name arg) events ->
               exists a, In a ([holder] ++ [reverting])
                         /\ is_address a = Ok true
                         /\ to_checksum_address a = Ok arg).
Proof.
  split; [reflexivity |].
  apply (invalid_address_recorded_without_call
           contract [holder] "not-an-address"%string [reverting] start).
  reflexivity.
Defined.


Lemma same_address_same_result_witness :
  let addresses := [holder; reverting; holder] in
  let results := [ (canonical holder, 1000, "Success"%string);
                   (reverting, 0, "Contract error: execution reverted"%string);
                   (canonical holder, 1000, "Success"%string) ] in
  let st' := snd (query_all contract addresses start) in
  @deterministic_source nat client
  /\ query_all contract addresses start = (Return results, st')
  /\ nth_error addresses 0 = Some holder
  /\ nth_error addresses 2 = Some holder
  /\ exists r, nth_error results 0 = Some r /\ nth_error results 2 = Some r.
Proof.
  intros addresses results st'.
  split; [exact mock_deterministic |].
  split; [vm_compute; reflexivity |].
  split; [reflexivity |]. split; [reflexivity |].
  apply (same_address_same_result contract addresses start results st'
                                  0%nat 2%nat holder).
  - exact mock_deterministic.
  - vm_compute. reflexivity.
  - reflexivity.
  - reflexivity.
Defined.

End Runs.

(** ** More properties of the script *)

Lemma string_length_app (s1 s2 : string) :
  String.length (s1 ++ s2) = (String.length s1 + String.length s2)%nat.
Proof. induction s1 as [| c s1 IH]; simpl; [reflexivity | now rewrite IH]. Qed.

Lemma repeat_char_length (c : ascii) (n : nat) :
  String.length (repeat_char c n) = n.
Proof. induction n as [| n IH]; simpl; [reflexivity | now rewrite IH]. Qed.

Lemma ljust_length (s : string) (w : nat) :
  String.length (ljust s w) = Nat.max w (String.length s).
Proof. unfold ljust. rewrite string_length_app, repeat_char_length. lia. Qed.

Lemma string_app_assoc (s1 s2 s3 : string) :
  ((s1 ++ s2) ++ s3 = s1 ++ (s2 ++ s3))%string.
Proof. induction s1 as [| c s1 IH]; simpl; [reflexivity | now rewrite IH]. Qed.

Section MoreProperties.
Context {World : Type} `{Web3Client World}.
Local Open Scope list_scope.

Implicit Types (st : state World) (contract : Contract) (address : string).

(** *** The table *)

Lemma row_shape (address shown status : string) :
  exists rest front,
    (ljust address 45 ++ " " ++ ljust shown 15 ++ " " ++ status)%string
    = (address ++ rest)%string
    /\ (ljust address 45 ++ " " ++ ljust shown 15 ++ " " ++ status)%string
       = (front ++ status)%string
    /\ String.length front
       = (Nat.max 45 (String.length address) + 1
          + Nat.max 15 (String.length shown) + 1)%nat.
Proof.
  exists (repeat_char " "%char (45 - String.length address) ++ " "
          ++ ljust shown 15 ++ " " ++ status)%string,
         (ljust address 45 ++ " " ++ ljust shown 15 ++ " ")%string.
  split; [unfold ljust at 1; now rewrite string_app_assoc |].
  split.
  - now rewrite !string_app_assoc.
  - rewrite !string_length_app, !ljust_length. simpl. lia.
Qed.

Lemma print_rows_lines (results : list QueryResult) st :
  exists lines,
    print_rows results st
    = (Return tt, mk_state (world st) (trace st ++ map EvPrint lines))
    /\ Forall2 row_of results lines.
Proof.
  revert st. induction results as [| [[a n] s] rest IH]; intros st.
  - exists []. cbn. rewrite app_nil_r. split; [now destruct st | constructor].
  - cbn [print_rows]. unfold bind at 1.
    set (r := (a, n, s)).
    destruct (row_shape a (shown_allocation r) s) as (tl & front & E1 & E2 & L).
    assert (Hline :
              (if String.eqb s "Success"
               then print (ljust a 45 ++ " " ++ ljust (str_int n) 15 ++ " " ++ s)
               else print (ljust a 45 ++ " " ++ ljust "N/A" 15 ++ " " ++ s)) st
              = (Return tt,
                 mk_state (world st)
                   (trace st ++
                    [EvPrint (ljust a 45 ++ " " ++ ljust (shown_allocation r) 15
                                ++ " " ++ s)%string]))).
    { unfold shown_allocation, is_success, r. cbn [qr_status qr_allocation fst snd].
      destruct (String.eqb s "Success"); reflexivity. }
    rewrite Hline.
    match goal with
    | |- context [print_rows rest ?s1] => destruct (IH s1) as (lines & E & F)
    end.
    eexists (_ :: lines). rewrite E. cbn [world trace map].
    split; [now rewrite <- app_assoc |].
    constructor; [| exact F].
    split; [exists tl; exact E1 | exists front; split; [exact E2 | exact L]].
Qed.


(** *** The loop, event by event *)

Lemma query_path_events contract address st r st' :
  query_path contract address st r st' ->
  exists events,
    trace st' = trace st ++ events
    /\ filter is_print events = []
    /\ filter is_csv events = []
    /\ List.length (filter is_call events)
       = (if callable address then 1 else 0)%nat.
Proof.
  unfold callable.
  intros [ Hv | e Hv Hc | ca e w Hv Hc Hcall | ca v w Hv Hc Hcall ].
  - exists []. rewrite app_nil_r. repeat (split; [reflexivity |]).
    destruct (is_address address) as [[|] | e]; try reflexivity.
    now contradiction Hv.
  - exists []. rewrite app_nil_r. repeat (split; [reflexivity |]).
    now rewrite Hv, Hc.
  - eexists. split; [reflexivity |]. repeat (split; [reflexivity |]).
    now rewrite Hv, Hc.
  - eexists. split; [reflexivity |]. repeat (split; [reflexivity |]).
    now rewrite Hv, Hc.
Qed.

Lemma query_each_events contract total addresses :
  forall i results st,
  exists rs st' events,
    query_each contract total i addresses results st
      = (Return (results ++ rs), st')
    /\ trace st' = trace st ++ events
    /\ filter is_print events = progress_lines total i addresses
    /\ filter is_csv events = []
    /\ List.length (filter is_call events)
       = List.length (filter callable addresses).
Proof.
  induction addresses as [| address rest IH]; intros i results st.
  - exists [], st, []. cbn. rewrite !app_nil_r. auto.
  - cbn [query_each]. unfold bind at 1. unfold print at 1.
    set (line := ("Querying " ++ str_int i ++ "/" ++ str_int total ++ ": "
                    ++ address)%string).
    set (st0 := mk_state (world st) (trace st ++ [EvPrint line])).
    unfold bind at 1.
    destruct (query_uq_alloc_path contract address st0) as (r & st1 & E & P).
    rewrite E.
    destruct (query_path_events _ _ _ _ _ P) as (ev1 & T1 & Pr1 & Cs1 & Ca1).
    destruct (IH (i + 1) (results ++ [r]) st1)
      as (rs & st2 & ev & E2 & T & Pr & Cs & Ca).
    exists (r :: rs), st2, (EvPrint line :: ev1 ++ ev).
    rewrite E2, <- app_assoc. cbn [app].
    split; [reflexivity |]. split.
    { rewrite T, T1. subst st0. cbn [trace]. now rewrite <- !app_assoc. }
    cbn [filter is_print is_csv is_call progress_lines].
    rewrite !filter_app, Pr1, Pr, Cs1, Cs. cbn [app].
    split; [reflexivity |]. split; [reflexivity |].
    rewrite length_app, Ca1, Ca.
    destruct (callable address); reflexivity.
Qed.

Lemma progress_lines_nth (total : Z) (addresses : list string) :
  forall i k a,
    nth_error addresses k = Some a ->
    nth_error (progress_lines total i addresses) k
    = Some (EvPrint ("Querying " ++ str_int (i + Z.of_nat k) ++ "/"
                       ++ str_int total ++ ": " ++ a)%string).
Proof.
  induction addresses as [| x rest IH]; intros i [| k] a Hk; try discriminate.
  - injection Hk as <-. cbn. now rewrite Z.add_0_r.
  - cbn [progress_lines nth_error]. rewrite (IH (i + 1) k a Hk).
    now replace (i + 1 + Z.of_nat k) with (i + Z.of_nat (S k)) by lia.
Qed.

Lemma progress_lines_length (total i : Z) (addresses : list string) :
  List.length (progress_lines total i addresses) = List.length addresses.
Proof.
  revert i. induction addresses as [| x rest IH]; intros i; cbn;
    [reflexivity | now rewrite IH].
Qed.

(** X. The batch makes exactly one contract call for each address that
    passes validation and has a checksummed form, and none for the others:
    there are no retries, and never more calls than addresses.  It writes no
    csv file. *)
Theorem one_call_per_callable_address contract addresses st :
  exists results st' events,
    query_all contract addresses st = (Return results, st')
    /\ trace st' = trace st ++ events
    /\ List.length (filter is_call events)
       = List.length (filter callable addresses)
    /\ (List.length (filter is_call events) <= List.length addresses)%nat
    /\ filter is_csv events = [].
Proof.
  unfold query_all.
  destruct (query_each_events contract (len addresses) addresses 1 [] st)
    as (rs & st' & ev & E & T & _ & Cs & Ca).
  exists rs, st', ev.
  split; [exact E |]. split; [exact T |]. split; [exact Ca |].
  split; [rewrite Ca; apply filter_length_le | exact Cs].
Qed.

(** X. The batch prints one progress line per address and nothing else:
    the line of the address at position [k] (from 0) reads
    "Querying k+1/n: address", where n is the number of addresses. *)
Theorem progress_lines_numbered contract addresses st :
  exists results st' events,
    query_all contract addresses st = (Return results, st')
    /\ trace st' = trace st ++ events
    /\ List.length (filter is_print events) = List.length addresses
    /\ forall k a,
         nth_error addresses k = Some a ->
         nth_error (filter is_print events) k
         = Some (EvPrint ("Querying " ++ str_int (Z.of_nat k + 1) ++ "/"
                            ++ str_int (Z.of_nat (List.length addresses))
                            ++ ": " ++ a)%string).
Proof.
  unfold query_all.
  destruct (query_each_events contract (len addresses) addresses 1 [] st)
    as (rs & st' & ev & E & T & Pr & _ & _).
  exists rs, st', ev.
  split; [exact E |]. split; [exact T |]. rewrite Pr.
  split; [apply progress_lines_length |].
  intros k a Hk. rewrite (progress_lines_nth _ _ 1 k a Hk).
  now replace (1 + Z.of_nat k) with (Z.of_nat k + 1) by lia.
Qed.

(** *** The summary figures *)

Lemma spec_successful_range (results : list QueryResult) :
  0 <= spec_successful results <= Z.of_nat (List.length results).
Proof.
  induction results as [| r rest IH]; cbn [spec_successful List.length].
  - lia.
  - destruct (is_success r); lia.
Qed.

Lemma spec_failed_count (results : list QueryResult) :
  spec_failed results
  = Z.of_nat (List.length (filter (fun r => negb (is_success r)) results)).
Proof.
  unfold spec_failed.
  induction results as [| r rest IH]; [reflexivity |].
  cbn [spec_successful List.length filter].
  destruct (is_success r); cbn [negb List.length]; lia.
Qed.

(** X. The success count of the summary lies between 0 and the number of
    results, and the failure figure [len(results) - successful] is exactly
    the number of results whose status is not "Success": it is never
    negative and the two figures add up to the total. *)
Theorem summary_counts_consistent (results : list QueryResult) :
  0 <= successful_queries results <= len results
  /\ len results - successful_queries results
     = Z.of_nat (List.length
                   (filter (fun r => negb (String.eqb (qr_status r) "Success"))
                           results))
  /\ successful_queries results
     + (len results - successful_queries results) = len results.
Proof.
  rewrite successful_queries_spec. unfold len.
  split; [apply spec_successful_range |].
  split; [apply spec_failed_count | lia].
Qed.

Lemma answers_allocation_range contract address r :
  decodes_by_abi ->
  contract_abi contract = CONTRACT_ABI ->
  answers contract address r ->
  is_success r = true -> 0 <= qr_allocation r < 2 ^ 256.
Proof.
  intros Habi Hc (st & st' & E) Hs. apply query_uq_alloc_inv in E.
  apply String.eqb_eq in Hs.
  destruct (path_status_success _ _ _ _ _ E Hs)
    as (ca & v & w & -> & _ & _ & Hcall).
  cbn. eapply Habi; [| exact Hcall].
  rewrite Hc. exact uqAlloc_declared_uint256.
Qed.

Lemma spec_total_allocation_range (results : list QueryResult) :
  Forall (fun r => is_success r = true -> 0 <= qr_allocation r < 2 ^ 256)
         results ->
  0 <= spec_total_allocation results
    <= spec_successful results * (2 ^ 256 - 1).
Proof.
  induction 1 as [| r rest Hr _ IH];
    cbn [spec_total_allocation spec_successful]; [lia |].
  destruct (is_success r); [specialize (Hr eq_refl) | ]; lia.
Qed.

(** X. With the script's ABI decoded as declared, the total allocation of a
    batch is non-negative and at most [2^256 - 1] per successful query; in
    particular it is 0 when no query succeeded. *)
Theorem batch_total_allocation_bounded contract addresses st :
  decodes_by_abi ->
  contract_abi contract = CONTRACT_ABI ->
  exists results st',
    query_all contract addresses st = (Return results, st')
    /\ 0 <= total_allocation results
         <= successful_queries results * (2 ^ 256 - 1)
    /\ (successful_queries results = 0 -> total_allocation results = 0).
Proof.
  intros Habi Hc.
  destruct (query_all_run contract addresses st) as (rs & st' & ev & E & F & _).
  exists rs, st'. split; [exact E |].
  rewrite total_allocation_spec, successful_queries_spec.
  assert (Hrange : 0 <= spec_total_allocation rs
                     <= spec_successful rs * (2 ^ 256 - 1)).
  { apply spec_total_allocation_range.
    eapply Forall2_right; [| exact F].
    intros a r Ha. now apply (answers_allocation_range contract a). }
  split; [exact Hrange |]. intros Hz. rewrite Hz in Hrange. lia.
Qed.

(** *** The whole run, event by event *)

Lemma print_summary_lines (results : list QueryResult) st :
  print_summary results st
  = (Return tt, mk_state (world st) (trace st ++ summary_lines results)).
Proof.
  unfold print_summary, bind, print, summary_lines. cbn [world trace].
  rewrite successful_queries_spec, total_allocation_spec.
  unfold spec_failed, len. now rewrite <- !app_assoc.
Qed.

Lemma print_table_trace (results : list QueryResult) st :
  exists lines,
    print_table results st
    = (Return tt,
       mk_state (world st) (trace st ++ table_head ++ map EvPrint lines))
    /\ Forall2 row_of results lines.
Proof.
  unfold print_table.
  do 5 (erewrite bind_eq by reflexivity).
  match goal with
  | |- context [print_rows results ?s1] =>
      destruct (print_rows_lines results s1) as (lines & E & F)
  end.
  exists lines. rewrite E. cbn [world trace]. split; [| exact F].
  unfold table_head. now rewrite <- !app_assoc.
Qed.

Lemma write_results_to_csv_trace (results : list QueryResult)
      (output_path : string) st :
  let header := ["address"; "uq_allocation"; "status"]%string in
  exists msg w,
    write_results_to_csv results output_path st
    = (Return tt,
       mk_state w (trace st ++ [EvCsv output_path header results; EvPrint msg]))
    /\ ((csv_write (world st) output_path header results = (Ok tt, w)
         /\ msg = ("Results written to " ++ output_path)%string)
        \/ exists e,
            csv_write (world st) output_path header results = (Err e, w)
            /\ msg = ("Error writing to CSV: " ++ exn_str e)%string).
Proof.
  intros header. unfold write_results_to_csv, try_except, bind.
  fold header.
  destruct (csv_write (world st) output_path header results)
    as [[[] | e] w] eqn:Hw; cbn [lift ret raise].
  - eexists _, w. unfold print. cbn [world trace]. rewrite <- app_assoc.
    split; [reflexivity |]. left. auto.
  - rewrite isinstance_Exception. eexists _, w. unfold print.
    cbn [world trace]. rewrite <- app_assoc.
    split; [reflexivity |]. right. exists e. auto.
Qed.

(** The run once the connection is up: the loop over the addresses from the
    state after the three opening lines, the output step, the summary. *)
Lemma main_connected a rest output_csv rpc_url st w checksum :
  is_connected (world st) rpc_url = (Ok true, w) ->
  to_checksum_address CONTRACT_ADDRESS = Ok checksum ->
  let addresses := a :: rest in
  let contract := mk_contract (mk_w3 rpc_url) checksum CONTRACT_ABI in
  let s0 := mk_state w
              (trace st ++
               [ EvPrint ("Loaded " ++ str_int (len addresses)
                            ++ " addresses to query")%string;
                 EvPrint "Connecting to Optimism network...";
                 EvPrint "Querying contract..." ]) in
  exists results s1,
    query_all contract addresses s0 = (Return results, s1)
    /\ Forall2 (answers contract) addresses results
    /\ forall s2,
        match output_csv with
        | Some output_path =>
            if truthy output_path
            then write_results_to_csv results output_path
            else print_table results
        | None => print_table results
        end s1 = (Return tt, s2) ->
        main addresses output_csv rpc_url st
        = (Return results,
           mk_state (world s2) (trace s2 ++ summary_lines results)).
Proof.
  intros Hconn Hck addresses contract s0.
  destruct (query_all_run contract addresses s0) as (rs & s1 & ev & E & F & _).
  exists rs, s1. split; [exact E |]. split; [exact F |].
  intros s2 Hout. subst addresses. unfold main.
  erewrite bind_eq by reflexivity.
  erewrite bind_eq by reflexivity.
  erewrite bind_eq by (apply setup_web3_connected; exact Hconn).
  rewrite Hck. erewrite bind_eq by reflexivity. cbv zeta.
  erewrite bind_eq by reflexivity.
  cbn [world trace]. rewrite <- !app_assoc. cbn [app].
  fold contract. fold s0.
  erewrite bind_eq by exact E.
  erewrite bind_eq by exact Hout.
  erewrite bind_eq by apply print_summary_lines.
  reflexivity.
Qed.

Lemma bind_exit {St A B} (m : @M St A) (k : A -> @M St B) s n s1 :
  m s = (SysExit n, s1) -> bind m k s = (SysExit n, s1).
Proof. intros E. unfold bind. now rewrite E. Qed.


(** [setup_web3] when the connection is not up: one line, then exit 1. *)
Lemma setup_web3_not_connected (rpc_url : string) st :
  fst (is_connected (world st) rpc_url) <> Ok true ->
  exists msg,
    setup_web3 rpc_url st
    = (SysExit 1,
       mk_state (snd (is_connected (world st) rpc_url))
         (trace st ++
          [EvPrint ("Error connecting to RPC endpoint: " ++ msg)%string]))
    /\ (fst (is_connected (world st) rpc_url) = Ok false ->
        msg = "Failed to connect to Ethereum node"%string)
    /\ (forall e, fst (is_connected (world st) rpc_url) = Err e ->
                  msg = exn_str e).
Proof.
  unfold setup_web3, try_except, bind.
  destruct (is_connected (world st) rpc_url) as [[[|] | e] w]; cbn; intros Hr.
  - now contradiction Hr.
  - eexists. split; [reflexivity |]. split; [reflexivity | discriminate].
  - rewrite isinstance_Exception. exists (exn_str e).
    split; [reflexivity |]. split; [discriminate |].
    now intros e' [= <-].
Qed.

Lemma main_not_connected a rest output_csv rpc_url st :
  fst (is_connected (world st) rpc_url) <> Ok true ->
  exists msg,
    main (a :: rest) output_csv rpc_url st
    = (SysExit 1,
       mk_state (snd (is_connected (world st) rpc_url))
         (trace st ++
          [ EvPrint ("Loaded " ++ str_int (len (a :: rest))
                       ++ " addresses to query")%string;
            EvPrint "Connecting to Optimism network...";
            EvPrint ("Error connecting to RPC endpoint: " ++ msg)%string ]))
    /\ (fst (is_connected (world st) rpc_url) = Ok false ->
        msg = "Failed to connect to Ethereum node"%string)
    /\ (forall e, fst (is_connected (world st) rpc_url) = Err e ->
                  msg = exn_str e).
Proof.
  intros Hr. unfold main.
  erewrite bind_eq by reflexivity.
  erewrite bind_eq by reflexivity.
  match goal with
  | |- context [bind (setup_web3 rpc_url) _ ?s] =>
      destruct (setup_web3_not_connected rpc_url s Hr) as (msg & E & M1 & M2)
  end.
  exists msg. erewrite bind_exit by exact E.
  cbn [world trace]. rewrite <- !app_assoc.
  split; [reflexivity |]. split; assumption.
Qed.

Lemma output_returns (results : list QueryResult) (output_csv : option string)
      st :
  exists s2,
    match output_csv with
    | Some output_path =>
        if truthy output_path
        then write_results_to_csv results output_path
        else print_table results
    | None => print_table results
    end st = (Return tt, s2).
Proof.
  destruct output_csv as [path |]; [| apply print_table_returns].
  destruct (truthy path);
    [apply write_results_to_csv_returns | apply print_table_returns].
Qed.

Lemma main_completes a rest output_csv rpc_url st w checksum :
  is_connected (world st) rpc_url = (Ok true, w) ->
  to_checksum_address CONTRACT_ADDRESS = Ok checksum ->
  exists results st',
    main (a :: rest) output_csv rpc_url st = (Return results, st')
    /\ List.length results = S (List.length rest)
    /\ Forall2 (answers (mk_contract (mk_w3 rpc_url) checksum CONTRACT_ABI))
               (a :: rest) results.
Proof.
  intros Hconn Hck.
  destruct (main_connected a rest output_csv rpc_url st w checksum Hconn Hck)
    as (rs & s1 & E & F & Hmain).
  destruct (output_returns rs output_csv s1) as (s2 & Hout).
  eexists rs, _. split; [exact (Hmain s2 Hout) |]. split; [| exact F].
  symmetry. exact (Forall2_length F).
Qed.

(** X. When the connection cannot be established - the check says no, or
    the client raises - [main] prints one error line and exits with status 1
    before any address is processed: after the two opening lines the error
    is the only event, so there is no validation result, no contract call
    and no report.  A refused check is reported as "Failed to connect to
    Ethereum node". *)
Theorem connection_failure_is_fatal a rest output_csv rpc_url st :
  fst (is_connected (world st) rpc_url) <> Ok true ->
  exists msg,
    main (a :: rest) output_csv rpc_url st
    = (SysExit 1,
       mk_state (snd (is_connected (world st) rpc_url))
         (trace st ++
          [ EvPrint ("Loaded " ++ str_int (Z.of_nat (S (List.length rest)))
                       ++ " addresses to query")%string;
            EvPrint "Connecting to Optimism network...";
            EvPrint ("Error connecting to RPC endpoint: " ++ msg)%string ]))
    /\ (fst (is_connected (world st) rpc_url) = Ok false ->
        msg = "Failed to connect to Ethereum node"%string)
    /\ (forall e, fst (is_connected (world st) rpc_url) = Err e ->
                  msg = exn_str e).
Proof.
  intros Hr.
  destruct (main_not_connected a rest output_csv rpc_url st Hr)
    as (msg & E & M1 & M2).
  exists msg. split; [exact E |]. split; assumption.
Qed.

(** X. Once the connection is up and the contract address has a checksummed
    form, [main] runs to its end on every non-empty address list, whatever
    the addresses and the output option: it returns one result per address,
    in order, each the answer of [query_uq_alloc] for its address. *)
Theorem main_completes_after_connection a rest output_csv rpc_url st w
        checksum :
  is_connected (world st) rpc_url = (Ok true, w) ->
  to_checksum_address CONTRACT_ADDRESS = Ok checksum ->
  exists results st',
    main (a :: rest) output_csv rpc_url st = (Return results, st')
    /\ List.length results = List.length (a :: rest)
    /\ forall k x,
         nth_error (a :: rest) k = Some x ->
         exists r,
           nth_error results k = Some r
           /\ answers (mk_contract (mk_w3 rpc_url) checksum CONTRACT_ABI) x r.
Proof.
  intros Hconn Hck.
  destruct (main_completes a rest output_csv rpc_url st w checksum Hconn Hck)
    as (rs & st' & E & L & F).
  exists rs, st'. split; [exact E |]. split; [exact L |].
  now apply Forall2_nth_error.
Qed.


(** X. With a non-empty output path the results go to the csv writer once,
    under the header address, uq_allocation, status and in the order of the
    run, and the table is not printed.  A failing write is not fatal and not
    retried: it is reported in one line, the summary follows, and [main]
    returns the results. *)
Theorem csv_output_replaces_table a rest output_path rpc_url st w checksum :
  is_connected (world st) rpc_url = (Ok true, w) ->
  to_checksum_address CONTRACT_ADDRESS = Ok checksum ->
  truthy output_path = true ->
  let contract := mk_contract (mk_w3 rpc_url) checksum CONTRACT_ABI in
  let s0 := mk_state w (trace st ++ opening_lines (len (a :: rest))) in
  let header := ["address"; "uq_allocation"; "status"]%string in
  exists results s1 msg w',
    query_all contract (a :: rest) s0 = (Return results, s1)
    /\ main (a :: rest) (Some output_path) rpc_url st
       = (Return results,
          mk_state w'
            (trace s1 ++ EvCsv output_path header results :: EvPrint msg
                         :: summary_lines results))
    /\ ((csv_write (world s1) output_path header results = (Ok tt, w')
         /\ msg = ("Results written to " ++ output_path)%string)
        \/ exists e,
            csv_write (world s1) output_path header results = (Err e, w')
            /\ msg = ("Error writing to CSV: " ++ exn_str e)%string).
Proof.
  intros Hconn Hck Hpath contract s0 header.
  destruct (main_connected a rest (Some output_path) rpc_url st w checksum
                           Hconn Hck) as (rs & s1 & E & _ & Hmain).
  rewrite Hpath in Hmain.
  destruct (write_results_to_csv_trace rs output_path s1)
    as (msg & w' & Ew & Hmsg).
  exists rs, s1, msg, w'. split; [exact E |].
  rewrite (Hmain _ Ew). cbn [world trace]. rewrite <- app_assoc.
  split; [reflexivity | exact Hmsg].
Qed.

(** X. Without an output path - the option absent or given as the empty
    string - the results are printed as a table: the five head lines, one
    line per result in order, then the summary.  Nothing is handed to the
    csv writer and the world is left as the loop left it. *)
Theorem console_output_without_csv_path a rest output_csv rpc_url st w
        checksum :
  is_connected (world st) rpc_url = (Ok true, w) ->
  to_checksum_address CONTRACT_ADDRESS = Ok checksum ->
  output_csv = None \/ output_csv = Some ""%string ->
  let contract := mk_contract (mk_w3 rpc_url) checksum CONTRACT_ABI in
  let s0 := mk_state w (trace st ++ opening_lines (len (a :: rest))) in
  exists results s1 lines,
    query_all contract (a :: rest) s0 = (Return results, s1)
    /\ main (a :: rest) output_csv rpc_url st
       = (Return results,
          mk_state (world s1)
            (trace s1 ++ table_head ++ map EvPrint lines
                      ++ summary_lines results))
    /\ Forall2 row_of results lines
    /\ filter is_csv (table_head ++ map EvPrint lines ++ summary_lines results)
       = [].
Proof.
  intros Hconn Hck Hout contract s0.
  destruct (main_connected a rest output_csv rpc_url st w checksum Hconn Hck)
    as (rs & s1 & E & _ & Hmain).
  destruct (print_table_trace rs s1) as (lines & Et & F).
  exists rs, s1, lines. split; [exact E |].
  assert (Hsel : match output_csv with
                 | Some output_path =>
                     if truthy output_path
                     then write_results_to_csv rs output_path
                     else print_table rs
                 | None => print_table rs
                 end = print_table rs).
  { destruct Hout as [-> | ->]; reflexivity. }
  rewrite Hsel in Hmain. rewrite (Hmain _ Et). cbn [world trace].
  rewrite <- !app_assoc. split; [reflexivity |]. split; [exact F |].
  rewrite !filter_app.
  assert (Hl : filter is_csv (map EvPrint lines) = []).
  { clear. induction lines as [| l ls IH]; [reflexivity | exact IH]. }
  now rewrite Hl.
Qed.

End MoreProperties.

(** *** The address file *)

Section LoaderProperties.
Context {World : Type} `{Web3Client World} `{CsvReader World}.
Local Open Scope list_scope.

Implicit Types (st : state World).

Lemma collect_rows_spec (rows : list (list string)) :
  forall addresses,
    collect_rows rows addresses
    = addresses ++ filter truthy (map strip (first_cells rows)).
Proof.
  induction rows as [| [| cell tl] rest IH]; intros addresses;
    cbn [collect_rows first_cells map filter].
  - now rewrite app_nil_r.
  - apply IH.
  - destruct (truthy (strip cell)); rewrite IH;
      [now rewrite <- app_assoc | reflexivity].
Qed.

Lemma first_cells_length (rows : list (list string)) :
  (List.length (first_cells rows) <= List.length rows)%nat.
Proof.
  induction rows as [| [| cell tl] rest IH]; cbn [first_cells List.length]; lia.
Qed.

Lemma load_rows (csv_path : string) st has_header rows w :
  csv_read (world st) csv_path = (CsvRows has_header rows, w) ->
  (has_header = true -> rows <> []) ->
  load_addresses_from_csv csv_path st
  = (Return (filter truthy
               (map strip
                    (first_cells (if has_header then tl rows else rows)))),
     mk_state w (trace st)).
Proof.
  intros Hread Hrows. unfold load_addresses_from_csv. rewrite Hread.
  destruct has_header.
  - destruct rows as [| header data]; [now contradiction Hrows |].
    unfold ret. now rewrite collect_rows_spec.
  - unfold ret. now rewrite collect_rows_spec.
Qed.

(** X. From a file that could be read, the loader returns the stripped first
    cell of every row that has cells, in row order and without the header row
    when the sniffer saw one, leaving out those that strip to the empty
    string: no returned address is empty, and there are at most as many as
    data rows.  It prints nothing. *)
Theorem loaded_addresses_are_stripped_first_cells (csv_path : string) st
        has_header rows w :
  csv_read (world st) csv_path = (CsvRows has_header rows, w) ->
  (has_header = true -> rows <> []) ->
  let data := if has_header then tl rows else rows in
  exists addresses,
    load_addresses_from_csv csv_path st
    = (Return addresses, mk_state w (trace st))
    /\ addresses = filter truthy (map strip (first_cells data))
    /\ Forall (fun a => a <> ""%string) addresses
    /\ (List.length addresses <= List.length data)%nat.
Proof.
  intros Hread Hrows data.
  exists (filter truthy (map strip (first_cells data))).
  split; [now apply load_rows |]. split; [reflexivity |]. split.
  - apply Forall_forall. intros a Ha. apply filter_In in Ha as [_ Ht].
    intros ->. discriminate Ht.
  - etransitivity; [apply filter_length_le |].
    rewrite length_map. apply first_cells_length.
Qed.

(** X. The loader never raises.  It returns only when the file was read;
    otherwise it prints exactly one line and exits with status 1, and for a
    missing file the line names the path. *)
Theorem load_failure_is_fatal (csv_path : string) st :
  match load_addresses_from_csv csv_path st with
  | (Return _, st') =>
      (exists has_header rows,
          fst (csv_read (world st) csv_path) = CsvRows has_header rows)
      /\ trace st' = trace st
  | (SysExit code, st') =>
      code = 1
      /\ exists msg,
          trace st' = trace st ++ [EvPrint msg]
          /\ (fst (csv_read (world st) csv_path) = CsvNotFound ->
              msg = ("Error: CSV file '" ++ csv_path ++ "' not found")%string)
  | (Raise _, _) => False
  end.
Proof.
  unfold load_addresses_from_csv.
  destruct (csv_read (world st) csv_path) as [[h rows | | e] w]; cbn [fst].
  - destruct h; [destruct rows as [| header data] |]; cbn.
    + split; [reflexivity |]. eexists. split; [reflexivity | discriminate].
    + split; [eauto | reflexivity].
    + split; [eauto | reflexivity].
  - cbn. split; [reflexivity |]. eexists. split; reflexivity.
  - rewrite isinstance_Exception. cbn.
    split; [reflexivity |]. eexists. split; [reflexivity | discriminate].
Qed.

(** X. An address file whose rows give no address - every data row is empty
    or has a first cell that strips to the empty string - ends the run with
    "No addresses to query" and exit status 1, before any connection is
    attempted: that line is the only event. *)
Theorem blank_csv_is_fatal (csv_file : string) output_csv rpc_url st
        has_header rows w :
  csv_read (world st) csv_file = (CsvRows has_header rows, w) ->
  (has_header = true -> rows <> []) ->
  Forall (fun cell => strip cell = ""%string)
         (first_cells (if has_header then tl rows else rows)) ->
  main_cli (mk_args (ArgCsvFile csv_file) output_csv rpc_url) st
  = (SysExit 1, mk_state w (trace st ++ [EvPrint "No addresses to query"])).
Proof.
  intros Hread Hrows Hblank. unfold main_cli. cbn [args_input].
  erewrite bind_eq by (apply load_rows; eassumption).
  assert (Hnil : filter truthy
                   (map strip
                        (first_cells (if has_header then tl rows else rows)))
                 = []).
  { induction Hblank as [| cell cells Hc _ IH]; [reflexivity |].
    cbn [map filter]. now rewrite Hc. }
  rewrite Hnil. reflexivity.
Qed.

(** X. From the address file to the results: when the file gives at least
    one address, the connection is up and the contract address has a
    checksummed form, the run returns one result per loaded address, in the
    order of the rows. *)
Theorem csv_run_answers_loaded_addresses (csv_file : string) output_csv
        rpc_url st has_header rows w w' checksum :
  csv_read (world st) csv_file = (CsvRows has_header rows, w) ->
  (has_header = true -> rows <> []) ->
  is_connected w rpc_url = (Ok true, w') ->
  to_checksum_address CONTRACT_ADDRESS = Ok checksum ->
  let addresses :=
    filter truthy
           (map strip (first_cells (if has_header then tl rows else rows))) in
  addresses <> [] ->
  exists results st',
    main_cli (mk_args (ArgCsvFile csv_file) output_csv rpc_url) st
    = (Return results, st')
    /\ Forall2 (answers (mk_contract (mk_w3 rpc_url) checksum CONTRACT_ABI))
               addresses results.
Proof.
  intros Hread Hrows Hconn Hck addresses Hne.
  unfold main_cli. cbn [args_input args_output_csv args_rpc_url].
  erewrite bind_eq by (apply load_rows; eassumption).
  fold addresses. destruct addresses as [| a rest]; [now contradiction Hne |].
  destruct (main_completes a rest output_csv rpc_url (mk_state w (trace st))
                           w' checksum Hconn Hck) as (rs & st' & E & _ & F).
  exists rs, st'. split; [exact E | exact F].
Qed.

End LoaderProperties.

(** ** More runs on concrete inputs *)

Section MoreRuns.
Import Mock Doubles.
Local Open Scope list_scope.

(** An allocation of 19 digits pushes the status four columns to the
    right of where a short one puts it. *)
Example wide_allocation_shifts_status :
  snd (print_rows [ (canonical holder, 5, "Success"%string);
                    (canonical holder, 10 ^ 18, "Success"%string) ] start)
  = mk_state O
      [ EvPrint
          "0xABCDEF0123456789ABCDEF0123456789ABCDEF01    5               Success";
        EvPrint
          "0xABCDEF0123456789ABCDEF0123456789ABCDEF01    1000000000000000000 Success" ].
Proof. vm_compute. reflexivity. Qed.

(** The rows of [addresses.csv]: the header is skipped, the first cell is
    stripped, the empty row and the blank cell are left out. *)
Example load_addresses_csv :
  @load_addresses_from_csv nat files "addresses.csv" start
  = (Return [holder; "not-an-address"%string], start).
Proof. vm_compute. reflexivity. Qed.

Example load_missing_csv :
  @load_addresses_from_csv nat files "nowhere.csv" start
  = (SysExit 1,
     mk_state O [EvPrint "Error: CSV file 'nowhere.csv' not found"]).
Proof. vm_compute. reflexivity. Qed.

Lemma batch_total_allocation_bounded_witness :
  @decodes_by_abi nat client
  /\ contract_abi contract = CONTRACT_ABI
  /\ exists results st',
      query_all contract [holder; reverting; holder] start
        = (Return results, st')
      /\ 0 <= total_allocation results
           <= successful_queries results * (2 ^ 256 - 1)
      /\ (successful_queries results = 0 -> total_allocation results = 0).
Proof.
  split; [exact mock_decodes_by_abi |]. split; [reflexivity |].
  apply (batch_total_allocation_bounded contract [holder; reverting; holder]
                                        start).
  - exact mock_decodes_by_abi.
  - reflexivity.
Defined.

Lemma connection_failure_is_fatal_witness :
  fst (@is_connected nat offline (world start) OPTIMISM_RPC_URL) <> Ok true
  /\ @main nat offline [holder; reverting] None OPTIMISM_RPC_URL start
     = (SysExit 1,
        mk_state O
          [ EvPrint "Loaded 2 addresses to query";
            EvPrint "Connecting to Optimism network...";
            EvPrint
              "Error connecting to RPC endpoint: Failed to connect to Ethereum node" ]).
Proof.
  assert (Hoff : fst (@is_connected nat offline (world start) OPTIMISM_RPC_URL)
                 <> Ok true) by discriminate.
  split; [exact Hoff |].
  destruct (@connection_failure_is_fatal nat offline holder [reverting] None
              OPTIMISM_RPC_URL start Hoff) as (msg & E & Hmsg & _).
  rewrite E, (Hmsg eq_refl). reflexivity.
Defined.

Lemma main_completes_after_connection_witness :
  is_connected (world start) OPTIMISM_RPC_URL = (Ok true, O)
  /\ to_checksum_address CONTRACT_ADDRESS = Ok (canonical CONTRACT_ADDRESS)
  /\ exists results st',
      main [holder; "zz"%string] (Some "out.csv"%string) OPTIMISM_RPC_URL start
      = (Return results, st')
      /\ List.length results = 2%nat
      /\ forall k x,
           nth_error [holder; "zz"%string] k = Some x ->
           exists r, nth_error results k = Some r /\ answers contract x r.
Proof.
  split; [reflexivity |]. split; [reflexivity |].
  exact (main_completes_after_connection
           holder ["zz"%string] (Some "out.csv"%string) OPTIMISM_RPC_URL start
           O (canonical CONTRACT_ADDRESS) eq_refl eq_refl).
Defined.

Lemma csv_output_replaces_table_witness :
  @is_connected nat readonly (world start) OPTIMISM_RPC_URL = (Ok true, O)
  /\ @to_checksum_address nat readonly CONTRACT_ADDRESS
     = Ok (canonical CONTRACT_ADDRESS)
  /\ truthy "out.csv" = true
  /\ exists results s1 msg w',
      @query_all nat readonly contract [holder]
        (mk_state O (trace start ++ opening_lines 1))
      = (Return results, s1)
      /\ @main nat readonly [holder] (Some "out.csv"%string) OPTIMISM_RPC_URL
                start
         = (Return results,
            mk_state w'
              (trace s1
               ++ EvCsv "out.csv" ["address"; "uq_allocation"; "status"]%string
                        results
               :: EvPrint msg :: summary_lines results))
      /\ ((@csv_write nat readonly (world s1) "out.csv"
                      ["address"; "uq_allocation"; "status"]%string results
           = (Ok tt, w')
           /\ msg = "Results written to out.csv"%string)
          \/ exists e,
              @csv_write nat readonly (world s1) "out.csv"
                         ["address"; "uq_allocation"; "status"]%string results
              = (Err e, w')
              /\ msg = ("Error writing to CSV: " ++ exn_str e)%string).
Proof.
  split; [reflexivity |]. split; [reflexivity |]. split; [reflexivity |].
  exact (@csv_output_replaces_table nat readonly holder [] "out.csv"%string
           OPTIMISM_RPC_URL start O (canonical CONTRACT_ADDRESS)
           eq_refl eq_refl eq_refl).
Defined.

Lemma console_output_without_csv_path_witness :
  is_connected (world start) OPTIMISM_RPC_URL = (Ok true, O)
  /\ to_checksum_address CONTRACT_ADDRESS = Ok (canonical CONTRACT_ADDRESS)
  /\ (Some ""%string = None \/ Some ""%string = Some ""%string)
  /\ exists results s1 lines,
      query_all contract [holder; reverting]
        (mk_state O (trace start ++ opening_lines 2))
      = (Return results, s1)
      /\ main [holder; reverting] (Some ""%string) OPTIMISM_RPC_URL start
         = (Return results,
            mk_state (world s1)
              (trace s1 ++ table_head ++ map EvPrint lines
                        ++ summary_lines results))
      /\ Forall2 row_of results lines
      /\ filter is_csv
                (table_head ++ map EvPrint lines ++ summary_lines results)
         = [].
Proof.
  split; [reflexivity |]. split; [reflexivity |]. split; [now right |].
  exact (console_output_without_csv_path
           holder [reverting] (Some ""%string) OPTIMISM_RPC_URL start
           O (canonical CONTRACT_ADDRESS) eq_refl eq_refl
           (or_intror eq_refl)).
Defined.

Lemma loaded_addresses_are_stripped_first_cells_witness :
  let rows := [ ["address"; "note"]%string;
                [(" " ++ holder ++ " ")%string; "first"%string];
                [];
                ["   "; "blank"]%string;
                ["not-an-address"%string] ] in
  @csv_read nat files (world start) "addresses.csv" = (CsvRows true rows, O)
  /\ (true = true -> rows <> [])
  /\ exists addresses,
      @load_addresses_from_csv nat files "addresses.csv" start
      = (Return addresses, mk_state O (trace start))
      /\ addresses = filter truthy (map (@strip nat files) (first_cells (tl rows)))
      /\ Forall (fun a => a <> ""%string) addresses
      /\ (List.length addresses <= List.length (tl rows))%nat.
Proof.
  intros rows.
  assert (Hrows : true = true -> rows <> []) by (intros _; discriminate).
  split; [reflexivity |]. split; [exact Hrows |].
  exact (@loaded_addresses_are_stripped_first_cells nat files
           "addresses.csv"%string start true rows O eq_refl Hrows).
Defined.

Lemma blank_csv_is_fatal_witness :
  let rows := [ []; ["  "%string]; [""; "x"]%string ] in
  @csv_read nat files (world start) "blank.csv" = (CsvRows false rows, O)
  /\ (false = true -> rows <> [])
  /\ Forall (fun cell => @strip nat files cell = ""%string) (first_cells rows)
  /\ @main_cli nat client files
       (mk_args (ArgCsvFile "blank.csv") None OPTIMISM_RPC_URL) start
     = (SysExit 1, mk_state O (trace start ++ [EvPrint "No addresses to query"])).
Proof.
  intros rows.
  assert (Hrows : false = true -> rows <> []) by discriminate.
  assert (Hblank : Forall (fun cell => @strip nat files cell = ""%string)
                          (first_cells rows)).
  { repeat constructor. }
  split; [reflexivity |]. split; [exact Hrows |]. split; [exact Hblank |].
  exact (@blank_csv_is_fatal nat client files "blank.csv"%string None
           OPTIMISM_RPC_URL start false rows O eq_refl Hrows Hblank).
Defined.

Lemma csv_run_answers_loaded_addresses_witness :
  let rows := [ ["address"; "note"]%string;
                [(" " ++ holder ++ " ")%string; "first"%string];
                [];
                ["   "; "blank"]%string;
                ["not-an-address"%string] ] in
  @csv_read nat files (world start) "addresses.csv" = (CsvRows true rows, O)
  /\ (true = true -> rows <> [])
  /\ is_connected O OPTIMISM_RPC_URL = (Ok true, O)
  /\ to_checksum_address CONTRACT_ADDRESS = Ok (canonical CONTRACT_ADDRESS)
  /\ filter truthy (map (@strip nat files) (first_cells (tl rows))) <> []
  /\ exists results st',
      @main_cli nat client files
        (mk_args (ArgCsvFile "addresses.csv") None OPTIMISM_RPC_URL) start
      = (Return results, st')
      /\ Forall2 (answers contract)
                 (filter truthy (map (@strip nat files) (first_cells (tl rows))))
                 results.
Proof.
  intros rows.
  assert (Hrows : true = true -> rows <> []) by (intros _; discriminate).
  assert (Hne : filter truthy (map (@strip nat files) (first_cells (tl rows)))
                <> []) by (vm_compute; discriminate).
  split; [reflexivity |]. split; [exact Hrows |]. split; [reflexivity |].
  split; [reflexivity |]. split; [exact Hne |].
  exact (@csv_run_answers_loaded_addresses nat client files
           "addresses.csv"%string None OPTIMISM_RPC_URL start true rows O O
           (canonical CONTRACT_ADDRESS) eq_refl Hrows eq_refl eq_refl Hne).
Defined.

End MoreRuns.
